(** * IssueService (src/issue/issue.service.ts)

    A shallow embedding of the NestJS [IssueService] and of the three
    collaborators that are injected into it (the two TypeORM repositories
    and the AMQP connection), followed by the properties of the service
    that the specification states.

    - JavaScript objects (the DTOs, the entity columns, the event
      payloads) are finite maps from property names to values.
    - An [async] method is a function from the state of the collaborators
      to an outcome (the promise resolved or rejected) and the state
      afterwards.  A rejection keeps the state reached so far: nothing is
      rolled back.
    - The service is written once, against the interface of its
      collaborators ([Deps]); [Mem] gives the in-memory collaborators used
      to talk about persisted records and published events. *)

From stdpp Require Import base option list gmap strings pretty.
From Stdlib Require Import ZArith.

Open Scope string_scope.
Open Scope list_scope.

(* ================================================================= *)
(** ** Values and objects *)

(** Modelled from the spec: [enum/update-scope] is imported by the service
    but is not among the sources; the spec lists its four tags. *)
Inductive UpdateScope := TITLE | DESCRIPTION | STATUS | COMMENT.

Inductive Value :=
| VUndefined
| VStr (s : string)
| VNum (n : Z)
| VScopes (l : list UpdateScope).

#[global] Instance UpdateScope_eq_dec : EqDecision UpdateScope.
Proof. solve_decision. Defined.

#[global] Instance Value_eq_dec : EqDecision Value.
Proof. solve_decision. Defined.

(** A plain JavaScript object: its own enumerable properties. *)
Abbreviation Obj := (gmap string Value).

(** [o.k]: reading a property that is absent gives [undefined]. *)
Definition prop (k : string) (o : Obj) : Value := default VUndefined (o !! k).

(** ['k' in o]. *)
Definition has_key (k : string) (o : Obj) : bool := bool_decide (is_Some (o !! k)).

(** An object literal [{ k1: v1, ..., kn: vn }]: a later entry for the same
    key replaces an earlier one. *)
Definition fromEntries (l : list (string * Value)) : Obj :=
  foldl (λ o kv, <[kv.1 := kv.2]> o) ∅ l.

(* ================================================================= *)
(** ** Entities *)

(** An [Issue] entity: its column properties and, when the relation was
    loaded, its comments. *)
Record Issue := mkIssue {
  issue_props : Obj;
  issue_comments : option (list Obj)
}.

(** A [Comment] entity: its column properties and the issue it is linked
    to, when that link is set on the object. *)
Record Comment := mkComment {
  comment_props : Obj;
  comment_issue : option Issue
}.

(** The result of [Repository.delete]; [affected] may be missing. *)
Record DeleteResult := mkDeleteResult { affected : option nat }.

(** [!n] for an optional number: missing and [0] are falsy. *)
Definition falsy_count (n : option nat) : bool :=
  match n with
  | None => true
  | Some O => true
  | Some (S _) => false
  end.

(* ================================================================= *)
(** ** Exceptions and asynchronous computations *)

Inductive HttpStatus := NOT_FOUND | INTERNAL_SERVER_ERROR.

Definition statusCode (s : HttpStatus) : Z :=
  match s with
  | NOT_FOUND => 404
  | INTERNAL_SERVER_ERROR => 500
  end.

(** What a promise can be rejected with: an [HttpException] raised by the
    service, or whatever a collaborator rejected with. *)
Inductive Thrown :=
| HttpException (response : string) (status : HttpStatus)
| Failure (reason : string).

Inductive Outcome (A : Type) :=
| Resolved (a : A)
| Rejected (e : Thrown).
Arguments Resolved {A} a.
Arguments Rejected {A} e.

Definition Async (W A : Type) : Type := W → Outcome A * W.

Section AsyncOps.
Context {W : Type}.

Definition ret {A} (a : A) : Async W A := λ w, (Resolved a, w).

Definition throw {A} (e : Thrown) : Async W A := λ w, (Rejected e, w).

(** [await c] followed by the rest of the method. *)
Definition bind {A B} (c : Async W A) (k : A → Async W B) : Async W B :=
  λ w, match c w with
       | (Resolved a, w') => k a w'
       | (Rejected e, w') => (Rejected e, w')
       end.

(** [try { body } catch (error) { handler }]. *)
Definition tryCatch {A} (body : Async W A) (handler : Thrown → Async W A)
  : Async W A :=
  λ w, match body w with
       | (Resolved a, w') => (Resolved a, w')
       | (Rejected e, w') => handler e w'
       end.

(** A synchronous effect that cannot fail. *)
Definition effect (f : W → W) : Async W unit := λ w, (Resolved tt, f w).

(** The truth value of a promise that was not awaited: a promise is an
    object, and every object is truthy. *)
Definition truthy_promise {A} (p : Async W A) : bool := true.
End AsyncOps.

Notation "'let!' x ':=' c 'in' k" := (bind c (λ x, k))
  (at level 10, x name, c at level 100, k at level 200, only parsing).
Notation "'run!' c 'in' k" := (bind c (λ _, k))
  (at level 10, c at level 100, k at level 200, only parsing).

(* ================================================================= *)
(** ** The collaborators of the service *)

(** The part of [Repository<Issue>], [Repository<Comment>], [AmqpConnection]
    and [console] that the service calls, over a state [W] of the outside
    world. *)
Record Deps (W : Type) := mkDeps {
  (** [issueRepository.create(dto)]: a new entity object, nothing stored. *)
  issueRepository_create : Obj → Issue;
  (** [issueRepository.save(entity)]: the entity as it is after the save
      (the object passed in is filled in place, generated id included). *)
  issueRepository_save : Issue → Async W Issue;
  issueRepository_find : Async W (list Issue);
  (** [createQueryBuilder('issue').where('issue.projectId = :projectId',
      ...).getMany()]. *)
  issueRepository_getManyByProject : string → Async W (list Issue);
  (** [issueRepository.findOne(id, { relations })]; [undefined] is [None]. *)
  issueRepository_findOne : string → list string → Async W (option Issue);
  issueRepository_update : string → Obj → Async W unit;
  issueRepository_delete : string → Async W DeleteResult;
  commentRepository_create : Comment → Comment;
  commentRepository_save : Comment → Async W Comment;
  commentRepository_find : Async W (list Comment);
  (** [amqpConnection.publish(exchange, routingKey, message)]. *)
  amqpConnection_publish : string → string → Obj → Async W unit;
  console_error : Thrown → W → W
}.
Arguments issueRepository_create {W}.
Arguments issueRepository_save {W}.
Arguments issueRepository_find {W}.
Arguments issueRepository_getManyByProject {W}.
Arguments issueRepository_findOne {W}.
Arguments issueRepository_update {W}.
Arguments issueRepository_delete {W}.
Arguments commentRepository_create {W}.
Arguments commentRepository_save {W}.
Arguments commentRepository_find {W}.
Arguments amqpConnection_publish {W}.
Arguments console_error {W}.

(* ================================================================= *)
(** ** The service *)

(** Lines 80-90 of [update]: the scopes pushed, in the order of the three
    [if] statements. *)
Definition updateScopesOf (updateIssueDto : Obj) : list UpdateScope :=
  let updateScopes := [] in
  let updateScopes :=
    if has_key "title" updateIssueDto
    then updateScopes ++ [TITLE] else updateScopes in
  let updateScopes :=
    if has_key "description" updateIssueDto
    then updateScopes ++ [DESCRIPTION] else updateScopes in
  let updateScopes :=
    if has_key "status" updateIssueDto
    then updateScopes ++ [STATUS] else updateScopes in
  updateScopes.

(** The message of [news.issue.update] in [update]:
    [{ ...updateIssueDto, projectId, issueId, updateScopes }]. *)
Definition updatePayload (updateIssueDto : Obj) (updatedIssue : Issue) : Obj :=
  <["updateScopes" := VScopes (updateScopesOf updateIssueDto)]>
    (<["issueId" := prop "id" (issue_props updatedIssue)]>
       (<["projectId" := prop "projectId" (issue_props updatedIssue)]>
          updateIssueDto)).

(** The message of [news.issue.delete] in [remove]. *)
Definition deletePayload (issue : Issue) : Obj :=
  <["issueId" := prop "id" (issue_props issue)]>
    (<["projectId" := prop "projectId" (issue_props issue)]>
       (<["description" := prop "description" (issue_props issue)]>
          {["title" := prop "title" (issue_props issue)]})).

(** The message of [news.issue.update] in [addComment]:
    [{ issueId, projectId, updateScopes: [COMMENT], ...createCommentDto }];
    the spread comes last, so the properties of the DTO win. *)
Definition commentPayload (createCommentDto : Obj) (issue : Issue) : Obj :=
  createCommentDto ∪
    <["updateScopes" := VScopes [COMMENT]]>
      (<["projectId" := prop "projectId" (issue_props issue)]>
         {["issueId" := prop "id" (issue_props issue)]}).

Section IssueService.
Context {W : Type}.
Variable deps : Deps W.

Definition create (createIssueDto : Obj) : Async W Issue :=
  let newIssue := issueRepository_create deps createIssueDto in
  tryCatch
    (let! newIssue := issueRepository_save deps newIssue in
     run! amqpConnection_publish deps "direct-exchange"
            "project.issue.created"
            {["uuid" := prop "id" (issue_props newIssue)]} in
     run! amqpConnection_publish deps "news" "news.issue.create"
            (<["issueId" := prop "id" (issue_props newIssue)]>
               createIssueDto) in
     ret newIssue)
    (λ error,
       run! effect (console_error deps error) in
       throw (HttpException "Could not save issue" INTERNAL_SERVER_ERROR)).

Definition findAll : Async W (list Issue) :=
  issueRepository_find deps.

Definition findAllForProject (projectId : string) : Async W (list Issue) :=
  issueRepository_getManyByProject deps projectId.

Definition findOne (issueId : string) : Async W Issue :=
  let! issue := issueRepository_findOne deps issueId [] in
  match issue with
  | Some issue => ret issue
  | None => throw (HttpException "Issue not found" NOT_FOUND)
  end.

Definition update (issueId : string) (updateIssueDto : Obj) : Async W Issue :=
  run! issueRepository_update deps issueId updateIssueDto in
  let! updatedIssue := issueRepository_findOne deps issueId [] in
  match updatedIssue with
  | Some updatedIssue =>
      run! amqpConnection_publish deps "news" "news.issue.update"
             (updatePayload updateIssueDto updatedIssue) in
      ret updatedIssue
  | None => throw (HttpException "Issue not found" NOT_FOUND)
  end.

Definition remove (issueId : string) : Async W unit :=
  let! issue := findOne issueId in
  let! deleted := issueRepository_delete deps issueId in
  if falsy_count (affected deleted)
  then throw (HttpException "Post not found" NOT_FOUND)
  else
    run! amqpConnection_publish deps "direct-exchange"
           "project.issue.deleted" {["uuid" := VStr issueId]} in
    amqpConnection_publish deps "news" "news.issue.delete"
      (deletePayload issue).

Definition addComment (issueId : string) (createCommentDto : Obj)
  : Async W Comment :=
  let! issue := findOne issueId in
  let newComment :=
    commentRepository_create deps
      {| comment_props := delete "issue" createCommentDto;
         comment_issue := Some issue |} in
  let! newComment := commentRepository_save deps newComment in
  run! amqpConnection_publish deps "news" "news.issue.update"
         (commentPayload createCommentDto issue) in
  ret newComment.

(** [issue] is the promise itself (there is no [await]); returning it
    from the [async] method settles the result as that promise settles,
    so the method resolves with [undefined] ([None]) when the repository
    finds nothing. *)
Definition findAllCommentsForIssue (issueId : string)
  : Async W (option Issue) :=
  let issue := issueRepository_findOne deps issueId ["comments"] in
  if truthy_promise issue
  then issue
  else throw (HttpException "Issue not found" NOT_FOUND).

Definition findAllComments : Async W (list Comment) :=
  commentRepository_find deps.
End IssueService.

(* ================================================================= *)
(** ** In-memory collaborators *)

(** A message handed to the broker. *)
Record Event := mkEvent {
  exchange : string;
  routingKey : string;
  message : Obj
}.

(** A row of the comment table: its columns and the foreign key to the
    issue it belongs to. *)
Record CommentRow := mkCommentRow {
  row_props : Obj;
  row_issueId : Value
}.

(** The state outside the service: the two tables, the messages the broker
    accepted (oldest first), what was written to the console, and the
    number of identifiers generated so far. *)
Record World := mkWorld {
  issueTable : list Obj;
  commentTable : list CommentRow;
  published : list Event;
  consoleLog : list Thrown;
  nextId : nat
}.

(** The repository calls the service makes, with their arguments. *)
Inductive DbCall :=
| IssueSave (entity : Issue)
| IssueFind
| IssueGetMany (projectId : string)
| IssueFindOne (id : string) (relations : list string)
| IssueUpdate (id : string) (partial : Obj)
| IssueDelete (id : string)
| CommentSave (entity : Comment)
| CommentFind.

(** What the service cannot decide: the identifiers the store generates,
    and which repository calls and which publications are rejected. *)
Record Env := mkEnv {
  genId : nat → string;
  dbFault : DbCall → option Thrown;
  brokerFault : Event → option Thrown
}.

Module Mem.

Definition set_issueTable (t : list Obj) (w : World) : World :=
  {| issueTable := t; commentTable := commentTable w;
     published := published w; consoleLog := consoleLog w;
     nextId := nextId w |}.

Definition set_commentTable (t : list CommentRow) (w : World) : World :=
  {| issueTable := issueTable w; commentTable := t;
     published := published w; consoleLog := consoleLog w;
     nextId := nextId w |}.

Definition bump_nextId (w : World) : World :=
  {| issueTable := issueTable w; commentTable := commentTable w;
     published := published w; consoleLog := consoleLog w;
     nextId := S (nextId w) |}.

Definition log_event (ev : Event) (w : World) : World :=
  {| issueTable := issueTable w; commentTable := commentTable w;
     published := published w ++ [ev]; consoleLog := consoleLog w;
     nextId := nextId w |}.

Definition log_console (e : Thrown) (w : World) : World :=
  {| issueTable := issueTable w; commentTable := commentTable w;
     published := published w; consoleLog := consoleLog w ++ [e];
     nextId := nextId w |}.

(** A repository call: rejected when the environment says so, without
    touching the store. *)
Definition guarded {A} (env : Env) (call : DbCall) (body : Async World A)
  : Async World A :=
  match dbFault env call with
  | Some e => throw e
  | None => body
  end.

(** The rows whose primary key is [id]. *)
Definition rowsWithId (id : Value) (t : list Obj) : list Obj :=
  filter (λ r, prop "id" r = id) t.

(** [UPDATE ... SET ...partial WHERE id = :id] on the rows of a table. *)
Definition updateRows (id : Value) (partial : Obj) (t : list Obj) : list Obj :=
  (λ r, if decide (prop "id" r = id) then partial ∪ r else r) <$> t.

(** [DELETE ... WHERE id = :id] on the rows of a table. *)
Definition deleteRows (id : Value) (t : list Obj) : list Obj :=
  filter (λ r, prop "id" r ≠ id) t.

Definition entityOfRow (r : Obj) : Issue :=
  {| issue_props := r; issue_comments := None |}.

(** The comments of the issue [id], as the relation loads them. *)
Definition commentsOf (id : Value) (t : list CommentRow) : list Obj :=
  row_props <$> filter (λ c, row_issueId c = id) t.

Definition issueCreate (dto : Obj) : Issue :=
  {| issue_props := dto; issue_comments := None |}.

(** Insert with a generated id when the entity has none; otherwise write
    the columns to the row with that id, or insert it if there is none. *)
Definition issueSave (env : Env) (entity : Issue) : Async World Issue :=
  guarded env (IssueSave entity) (λ w,
    match prop "id" (issue_props entity) with
    | VUndefined =>
        let row := <["id" := VStr (genId env (nextId w))]> (issue_props entity) in
        (Resolved {| issue_props := row; issue_comments := issue_comments entity |},
         bump_nextId (set_issueTable (issueTable w ++ [row]) w))
    | id =>
        let t :=
          match rowsWithId id (issueTable w) with
          | [] => issueTable w ++ [issue_props entity]
          | _ => updateRows id (issue_props entity) (issueTable w)
          end in
        (Resolved entity, set_issueTable t w)
    end).

Definition issueFind (env : Env) : Async World (list Issue) :=
  guarded env IssueFind (λ w, (Resolved (entityOfRow <$> issueTable w), w)).

Definition issueGetManyByProject (env : Env) (projectId : string)
  : Async World (list Issue) :=
  guarded env (IssueGetMany projectId) (λ w,
    (Resolved (entityOfRow <$>
                 filter (λ r, prop "projectId" r = VStr projectId) (issueTable w)),
     w)).

Definition issueFindOne (env : Env) (id : string) (relations : list string)
  : Async World (option Issue) :=
  guarded env (IssueFindOne id relations) (λ w,
    (Resolved
       (match rowsWithId (VStr id) (issueTable w) with
        | [] => None
        | r :: _ =>
            Some {| issue_props := r;
                    issue_comments :=
                      if decide ("comments" ∈ relations)
                      then Some (commentsOf (VStr id) (commentTable w))
                      else None |}
        end),
     w)).

Definition issueUpdate (env : Env) (id : string) (partial : Obj)
  : Async World unit :=
  guarded env (IssueUpdate id partial) (λ w,
    (Resolved tt,
     set_issueTable (updateRows (VStr id) partial (issueTable w)) w)).

(** The delete reports the number of rows it removed. *)
Definition issueDelete (env : Env) (id : string) : Async World DeleteResult :=
  guarded env (IssueDelete id) (λ w,
    (Resolved {| affected := Some (length (rowsWithId (VStr id) (issueTable w))) |},
     set_issueTable (deleteRows (VStr id) (issueTable w)) w)).

Definition commentCreate (like : Comment) : Comment := like.

(** The foreign key stored for a comment entity. *)
Definition issueIdOf (entity : Comment) : Value :=
  match comment_issue entity with
  | Some issue => prop "id" (issue_props issue)
  | None => VUndefined
  end.

Definition commentSave (env : Env) (entity : Comment) : Async World Comment :=
  guarded env (CommentSave entity) (λ w,
    match prop "id" (comment_props entity) with
    | VUndefined =>
        let props := <["id" := VStr (genId env (nextId w))]> (comment_props entity) in
        (Resolved {| comment_props := props; comment_issue := comment_issue entity |},
         bump_nextId
           (set_commentTable
              (commentTable w ++
                 [{| row_props := props; row_issueId := issueIdOf entity |}]) w))
    | id =>
        let t :=
          match filter (λ c, prop "id" (row_props c) = id) (commentTable w) with
          | [] => commentTable w ++
                    [{| row_props := comment_props entity;
                        row_issueId := issueIdOf entity |}]
          | _ => (λ c, if decide (prop "id" (row_props c) = id)
                       then {| row_props := comment_props entity ∪ row_props c;
                               row_issueId := issueIdOf entity |}
                       else c) <$> commentTable w
          end in
        (Resolved entity, set_commentTable t w)
    end).

Definition commentFind (env : Env) : Async World (list Comment) :=
  guarded env CommentFind (λ w,
    (Resolved ((λ c, {| comment_props := row_props c; comment_issue := None |})
                 <$> commentTable w),
     w)).

(** The broker either rejects the message or records it. *)
Definition publish (env : Env) (ex key : string) (msg : Obj) : Async World unit :=
  let ev := {| exchange := ex; routingKey := key; message := msg |} in
  match brokerFault env ev with
  | Some e => throw e
  | None => effect (log_event ev)
  end.

Definition deps (env : Env) : Deps World :=
  {| issueRepository_create := issueCreate;
     issueRepository_save := issueSave env;
     issueRepository_find := issueFind env;
     issueRepository_getManyByProject := issueGetManyByProject env;
     issueRepository_findOne := issueFindOne env;
     issueRepository_update := issueUpdate env;
     issueRepository_delete := issueDelete env;
     commentRepository_create := commentCreate;
     commentRepository_save := commentSave env;
     commentRepository_find := commentFind env;
     amqpConnection_publish := publish env;
     console_error := log_console |}.

End Mem.

(* ================================================================= *)
(** ** Concrete environments and inputs *)

(** A store whose generated identifiers are [uuid-0], [uuid-1], ... *)
Definition decimalId (n : nat) : string := "uuid-" +:+ pretty n.

(** Nothing is ever rejected. *)
Definition envOk : Env :=
  {| genId := decimalId;
     dbFault := λ _, None;
     brokerFault := λ _, None |}.

(** The broker rejects every message on the [news] exchange. *)
Definition envNewsDown : Env :=
  {| genId := decimalId;
     dbFault := λ _, None;
     brokerFault := λ ev,
       if decide (exchange ev = "news")
       then Some (Failure "channel closed") else None |}.

(** The broker rejects everything. *)
Definition envBrokerDown : Env :=
  {| genId := decimalId;
     dbFault := λ _, None;
     brokerFault := λ _, Some (Failure "channel closed") |}.

(** The store rejects every call. *)
Definition envDbDown : Env :=
  {| genId := decimalId;
     dbFault := λ _, Some (Failure "connection lost");
     brokerFault := λ _, None |}.

Definition emptyWorld : World :=
  {| issueTable := []; commentTable := []; published := [];
     consoleLog := []; nextId := 0 |}.

Definition bugA : Obj :=
  fromEntries [("title", VStr "Bug A"); ("description", VStr "desc");
               ("projectId", VStr "P1")].

(** The world after [create bugA] on the empty world: one issue, [uuid-0]. *)
Definition worldA : World := (create (Mem.deps envOk) bugA emptyWorld).2.

Definition bugB : Obj :=
  fromEntries [("title", VStr "Bug B"); ("status", VStr "open");
               ("projectId", VStr "P1")].

(** The world after [create bugB] on the empty world: one issue, [uuid-0],
    whose status is [open]. *)
Definition worldB : World := (create (Mem.deps envOk) bugB emptyWorld).2.

(** Collaborators in which another request removes the row between the
    fetch and the delete of [remove]: the delete finds nothing left. *)
Definition depsRacingDelete (env : Env) : Deps World :=
  {| issueRepository_create := Mem.issueCreate;
     issueRepository_save := Mem.issueSave env;
     issueRepository_find := Mem.issueFind env;
     issueRepository_getManyByProject := Mem.issueGetManyByProject env;
     issueRepository_findOne := Mem.issueFindOne env;
     issueRepository_update := Mem.issueUpdate env;
     issueRepository_delete := λ id w,
       (Resolved {| affected := Some 0 |},
        Mem.set_issueTable (Mem.deleteRows (VStr id) (issueTable w)) w);
     commentRepository_create := Mem.commentCreate;
     commentRepository_save := Mem.commentSave env;
     commentRepository_find := Mem.commentFind env;
     amqpConnection_publish := Mem.publish env;
     console_error := Mem.log_console |}.

(** The three keys [update] looks for, with the scope each one stands for,
    in the order of the three [if] statements. *)
Definition scopeKeys : list (string * UpdateScope) :=
  [("title", TITLE); ("description", DESCRIPTION); ("status", STATUS)].

Definition commentHi : Obj := {["body" := VStr "hi"]}.

(** A comment input that brings properties named like the ones the service
    adds to the event. *)
Definition commentSpoof : Obj :=
  fromEntries [("body", VStr "hi"); ("issueId", VStr "uuid-9");
               ("updateScopes", VScopes [TITLE])].

(** An update input that brings properties named like the ones the service
    adds to the event. *)
Definition updateSpoof : Obj :=
  fromEntries [("title", VStr "Bug A2"); ("issueId", VStr "uuid-9");
               ("updateScopes", VScopes [])].

(** The world after [addComment "uuid-0" commentHi] on [worldA]. *)
Definition worldC : World :=
  (addComment (Mem.deps envOk) "uuid-0" commentHi worldA).2.

(** A second issue, of another project. *)
Definition bugC : Obj :=
  fromEntries [("title", VStr "Bug C"); ("projectId", VStr "P2")].

(** The world after [create bugC] on [worldA]: issues [uuid-0] and [uuid-1]. *)
Definition worldAC : World := (create (Mem.deps envOk) bugC worldA).2.

(** Modelled from the spec: the declaration of the [Issue] entity
    ([entities/issue.entity]), which says how the id column is generated,
    is not among the sources. The spec's data model has the id "unique,
    generated" by the store, and its testable properties have it non-empty.
    A store is an environment whose generator is such. *)
Record Store := mkStore {
  store_env : Env;
  store_ids_nonempty : ∀ n, genId store_env n ≠ "";
  store_ids_unique : ∀ n m, genId store_env n = genId store_env m → n = m
}.

(** The store of [envOk]: [uuid-0], [uuid-1], ... are non-empty and differ. *)
Definition storeOk : Store.
Proof.
  refine {| store_env := envOk |}.
  - intros n H. unfold envOk, genId, decimalId in H. discriminate H.
  - intros n m H. unfold envOk, genId, decimalId in H.
    cbn [String.append] in H. injection H as H. exact (inj pretty n m H).
Defined.

(** Partial fields that name none of [title], [description], [status]. *)
Definition moveProject : Obj := {["projectId" := VStr "P2"]}.

(** Partial fields that name none of the three either, and change the id. *)
Definition moveId : Obj := {["id" := VStr "zzz"]}.

(** Exchange and routing key of each message of a list. *)
Definition routes (evs : list Event) : list (string * string) :=
  (λ ev, (exchange ev, routingKey ev)) <$> evs.

(** What each mutating method publishes under when it runs to its end. *)
Definition createRoutes : list (string * string) :=
  [("direct-exchange", "project.issue.created"); ("news", "news.issue.create")].

Definition updateRoutes : list (string * string) :=
  [("news", "news.issue.update")].

Definition removeRoutes : list (string * string) :=
  [("direct-exchange", "project.issue.deleted"); ("news", "news.issue.delete")].

Definition addCommentRoutes : list (string * string) :=
  [("news", "news.issue.update")].

(* ================================================================= *)
(** ** Objects: keys and entries *)

Lemma has_key_true (k : string) (o : Obj) :
  has_key k o = true ↔ is_Some (o !! k).
Proof. unfold has_key. apply bool_decide_eq_true. Qed.

Lemma has_key_false (k : string) (o : Obj) :
  has_key k o = false ↔ o !! k = None.
Proof.
  unfold has_key. rewrite bool_decide_eq_false.
  split; [apply eq_None_not_Some | intros ->; apply is_Some_None].
Qed.

Lemma foldl_insert_key (l : list (string * Value)) (acc : Obj) (k : string) :
  is_Some (foldl (λ o kv, <[kv.1 := kv.2]> o) acc l !! k)
  ↔ is_Some (acc !! k) ∨ k ∈ l.*1.
Proof.
  revert acc. induction l as [|[k' v] l IH]; intros acc; simpl.
  - rewrite elem_of_nil. tauto.
  - rewrite IH, elem_of_cons, lookup_insert_is_Some. simpl.
    destruct (decide (k' = k)) as [->|Hne]; [tauto|].
    split; [intros [[?|[? ?]]|?] | intros [?|[?|?]]]; eauto; congruence.
Qed.

Lemma fromEntries_key (l : list (string * Value)) (k : string) :
  is_Some (fromEntries l !! k) ↔ k ∈ l.*1.
Proof.
  unfold fromEntries. rewrite foldl_insert_key, lookup_empty.
  split; [intros [H|H]; [by apply is_Some_None in H | done] | by right].
Qed.

Lemma has_key_fromEntries_perm (l1 l2 : list (string * Value)) (k : string) :
  l1 ≡ₚ l2 → has_key k (fromEntries l1) = has_key k (fromEntries l2).
Proof.
  intros Hp. unfold has_key. apply bool_decide_ext.
  rewrite !fromEntries_key. by rewrite Hp.
Qed.

(* ================================================================= *)
(** ** Awaiting *)

Section AsyncLemmas.
Context {W : Type}.

Lemma bind_resolved {A B} (c : Async W A) (k : A → Async W B) w a w' :
  c w = (Resolved a, w') → bind c k w = k a w'.
Proof. unfold bind. by intros ->. Qed.

Lemma bind_rejected {A B} (c : Async W A) (k : A → Async W B) w e w' :
  c w = (Rejected e, w') → bind c k w = (Rejected e, w').
Proof. unfold bind. by intros ->. Qed.

End AsyncLemmas.

(* ================================================================= *)
(** ** The in-memory collaborators, call by call *)

Lemma guarded_ok {A} env call (body : Async World A) :
  dbFault env call = None → Mem.guarded env call body = body.
Proof. unfold Mem.guarded. by intros ->. Qed.

(** A row selected by [rowsWithId] has that id and is in the table. *)
Lemma rowsWithId_head id t r rest :
  Mem.rowsWithId id t = r :: rest → prop "id" r = id ∧ r ∈ t.
Proof.
  intros H. apply (list_elem_of_filter (λ r, prop "id" r = id)).
  fold (Mem.rowsWithId id t). rewrite H. by left.
Qed.

(** Nothing is left under an id once its rows are filtered out. *)
Lemma rowsWithId_deleted id t :
  Mem.rowsWithId id (Mem.deleteRows id t) = [].
Proof.
  unfold Mem.rowsWithId, Mem.deleteRows. rewrite list_filter_filter.
  induction t as [|r t IH]; [done|].
  rewrite filter_cons_False; [done | tauto].
Qed.

(** An [UPDATE] whose [WHERE] matches no row leaves the table as it is. *)
Lemma update_no_match id (partial : Obj) (t : list Obj) :
  Mem.rowsWithId id t = [] → Mem.updateRows id partial t = t.
Proof.
  intros H. induction t as [|r t IH]; [done|].
  unfold Mem.rowsWithId, Mem.updateRows in *. rewrite filter_cons in H.
  destruct (decide (prop "id" r = id)) as [|Hne]; [discriminate|].
  rewrite fmap_cons, decide_False by done. f_equal. by apply IH.
Qed.

(* ================================================================= *)
(** ** The service over any collaborators *)

Section Generic.
Context {W : Type}.
Variable deps : Deps W.

Lemma findOne_found id w issue w1 :
  issueRepository_findOne deps id [] w = (Resolved (Some issue), w1) →
  findOne deps id w = (Resolved issue, w1).
Proof. intros H. unfold findOne. by rewrite (bind_resolved _ _ _ _ _ H). Qed.

Lemma findOne_not_found id w w1 :
  issueRepository_findOne deps id [] w = (Resolved None, w1) →
  findOne deps id w = (Rejected (HttpException "Issue not found" NOT_FOUND), w1).
Proof. intros H. unfold findOne. by rewrite (bind_resolved _ _ _ _ _ H). Qed.

Lemma update_found id dto w w1 issue w2 :
  issueRepository_update deps id dto w = (Resolved tt, w1) →
  issueRepository_findOne deps id [] w1 = (Resolved (Some issue), w2) →
  update deps id dto w =
    bind (amqpConnection_publish deps "news" "news.issue.update"
            (updatePayload dto issue)) (λ _, ret issue) w2.
Proof.
  intros Hu Hf. unfold update.
  rewrite (bind_resolved _ _ _ _ _ Hu). by rewrite (bind_resolved _ _ _ _ _ Hf).
Qed.

Lemma update_not_found id dto w w1 w2 :
  issueRepository_update deps id dto w = (Resolved tt, w1) →
  issueRepository_findOne deps id [] w1 = (Resolved None, w2) →
  update deps id dto w = (Rejected (HttpException "Issue not found" NOT_FOUND), w2).
Proof.
  intros Hu Hf. unfold update.
  rewrite (bind_resolved _ _ _ _ _ Hu). by rewrite (bind_resolved _ _ _ _ _ Hf).
Qed.

Lemma remove_zero_affected id w issue w1 deleted w2 :
  issueRepository_findOne deps id [] w = (Resolved (Some issue), w1) →
  issueRepository_delete deps id w1 = (Resolved deleted, w2) →
  falsy_count (affected deleted) = true →
  remove deps id w = (Rejected (HttpException "Post not found" NOT_FOUND), w2).
Proof.
  intros Hf Hd Hz. unfold remove.
  rewrite (bind_resolved _ _ _ _ _ (findOne_found _ _ _ _ Hf)).
  rewrite (bind_resolved _ _ _ _ _ Hd). by rewrite Hz.
Qed.

End Generic.

(* ================================================================= *)
(** ** The service over the in-memory collaborators, as one equation per
    method *)

Lemma mem_issueFindOne_plain env id w :
  Mem.issueFindOne env id [] w =
  match dbFault env (IssueFindOne id []) with
  | Some e => (Rejected e, w)
  | None =>
      (Resolved match Mem.rowsWithId (VStr id) (issueTable w) with
                | [] => None
                | r :: _ => Some (Mem.entityOfRow r)
                end, w)
  end.
Proof.
  unfold Mem.issueFindOne, Mem.guarded.
  destruct (dbFault env _); [done|].
  destruct (Mem.rowsWithId _ _); [done|].
  by rewrite decide_False by apply not_elem_of_nil.
Qed.

Lemma mem_findOne_eq env id w :
  findOne (Mem.deps env) id w =
  match dbFault env (IssueFindOne id []) with
  | Some e => (Rejected e, w)
  | None =>
      match Mem.rowsWithId (VStr id) (issueTable w) with
      | [] => (Rejected (HttpException "Issue not found" NOT_FOUND), w)
      | r :: _ => (Resolved (Mem.entityOfRow r), w)
      end
  end.
Proof.
  unfold findOne, bind; cbn. rewrite mem_issueFindOne_plain.
  destruct (dbFault env _); [done|].
  by destruct (Mem.rowsWithId _ _).
Qed.

Lemma mem_create_eq env dto w :
  dto !! "id" = None →
  let newId := genId env (nextId w) in
  let row := <["id" := VStr newId]> dto in
  let w1 := Mem.bump_nextId (Mem.set_issueTable (issueTable w ++ [row]) w) in
  let ev1 := mkEvent "direct-exchange" "project.issue.created"
               {["uuid" := VStr newId]} in
  let ev2 := mkEvent "news" "news.issue.create" (<["issueId" := VStr newId]> dto) in
  let internal := HttpException "Could not save issue" INTERNAL_SERVER_ERROR in
  create (Mem.deps env) dto w =
  match dbFault env (IssueSave (mkIssue dto None)) with
  | Some e => (Rejected internal, Mem.log_console e w)
  | None =>
      match brokerFault env ev1 with
      | Some e => (Rejected internal, Mem.log_console e w1)
      | None =>
          match brokerFault env ev2 with
          | Some e => (Rejected internal, Mem.log_console e (Mem.log_event ev1 w1))
          | None => (Resolved (mkIssue row None),
                     Mem.log_event ev2 (Mem.log_event ev1 w1))
          end
      end
  end.
Proof.
  intros Hid. cbn zeta.
  unfold create, tryCatch, bind; cbn.
  unfold Mem.issueSave, Mem.issueCreate, Mem.guarded, Mem.publish; cbn.
  destruct (dbFault env _); [done|].
  unfold prop at 1. rewrite Hid. cbn.
  unfold prop. rewrite lookup_insert_eq. cbn.
  destruct (brokerFault env _); [done|]. cbn.
  by destruct (brokerFault env _).
Qed.

Lemma mem_update_eq env id dto w :
  let w1 := Mem.set_issueTable (Mem.updateRows (VStr id) dto (issueTable w)) w in
  update (Mem.deps env) id dto w =
  match dbFault env (IssueUpdate id dto) with
  | Some e => (Rejected e, w)
  | None =>
      match dbFault env (IssueFindOne id []) with
      | Some e => (Rejected e, w1)
      | None =>
          match Mem.rowsWithId (VStr id) (issueTable w1) with
          | [] => (Rejected (HttpException "Issue not found" NOT_FOUND), w1)
          | r :: _ =>
              let ev := mkEvent "news" "news.issue.update"
                          (updatePayload dto (Mem.entityOfRow r)) in
              match brokerFault env ev with
              | Some e => (Rejected e, w1)
              | None => (Resolved (Mem.entityOfRow r), Mem.log_event ev w1)
              end
          end
      end
  end.
Proof.
  intros w1. unfold update, bind.
  change (issueRepository_update (Mem.deps env)) with (Mem.issueUpdate env).
  change (issueRepository_findOne (Mem.deps env)) with (Mem.issueFindOne env).
  change (amqpConnection_publish (Mem.deps env)) with (Mem.publish env).
  unfold Mem.issueUpdate, Mem.guarded.
  destruct (dbFault env (IssueUpdate _ _)); [done|].
  fold w1. rewrite mem_issueFindOne_plain.
  destruct (dbFault env (IssueFindOne _ _)); [done|].
  destruct (Mem.rowsWithId _ _) as [|r rest]; [done|].
  unfold Mem.publish.
  by destruct (brokerFault env _).
Qed.

Lemma mem_remove_eq env id w :
  let w1 := Mem.set_issueTable (Mem.deleteRows (VStr id) (issueTable w)) w in
  let ev1 := mkEvent "direct-exchange" "project.issue.deleted"
               {["uuid" := VStr id]} in
  remove (Mem.deps env) id w =
  match dbFault env (IssueFindOne id []) with
  | Some e => (Rejected e, w)
  | None =>
      match Mem.rowsWithId (VStr id) (issueTable w) with
      | [] => (Rejected (HttpException "Issue not found" NOT_FOUND), w)
      | r :: _ =>
          let ev2 := mkEvent "news" "news.issue.delete"
                       (deletePayload (Mem.entityOfRow r)) in
          match dbFault env (IssueDelete id) with
          | Some e => (Rejected e, w)
          | None =>
              match brokerFault env ev1 with
              | Some e => (Rejected e, w1)
              | None =>
                  match brokerFault env ev2 with
                  | Some e => (Rejected e, Mem.log_event ev1 w1)
                  | None => (Resolved tt, Mem.log_event ev2 (Mem.log_event ev1 w1))
                  end
              end
          end
      end
  end.
Proof.
  intros w1 ev1. unfold remove. unfold bind at 1. rewrite mem_findOne_eq.
  destruct (dbFault env (IssueFindOne _ _)); [done|].
  destruct (Mem.rowsWithId _ _) as [|r rest] eqn:Hrows; [done|].
  unfold bind.
  change (issueRepository_delete (Mem.deps env)) with (Mem.issueDelete env).
  change (amqpConnection_publish (Mem.deps env)) with (Mem.publish env).
  unfold Mem.issueDelete, Mem.guarded.
  destruct (dbFault env (IssueDelete _)); [done|].
  rewrite Hrows. fold w1. cbn [affected length falsy_count].
  unfold Mem.publish. fold ev1.
  destruct (brokerFault env ev1); [done|].
  by destruct (brokerFault env _).
Qed.

Lemma mem_addComment_eq env id dto w :
  addComment (Mem.deps env) id dto w =
  match dbFault env (IssueFindOne id []) with
  | Some e => (Rejected e, w)
  | None =>
      match Mem.rowsWithId (VStr id) (issueTable w) with
      | [] => (Rejected (HttpException "Issue not found" NOT_FOUND), w)
      | r :: _ =>
          let issue := Mem.entityOfRow r in
          match Mem.commentSave env (mkComment (delete "issue" dto) (Some issue)) w with
          | (Rejected e, w1) => (Rejected e, w1)
          | (Resolved c, w1) =>
              let ev := mkEvent "news" "news.issue.update"
                          (commentPayload dto issue) in
              match brokerFault env ev with
              | Some e => (Rejected e, w1)
              | None => (Resolved c, Mem.log_event ev w1)
              end
          end
      end
  end.
Proof.
  unfold addComment. unfold bind at 1. rewrite mem_findOne_eq.
  destruct (dbFault env (IssueFindOne _ _)); [done|].
  destruct (Mem.rowsWithId _ _) as [|r rest]; [done|].
  unfold bind.
  change (commentRepository_save (Mem.deps env)) with (Mem.commentSave env).
  change (commentRepository_create (Mem.deps env)) with Mem.commentCreate.
  change (amqpConnection_publish (Mem.deps env)) with (Mem.publish env).
  unfold Mem.commentCreate. cbn zeta.
  destruct (Mem.commentSave env _ w) as [[c|e] w1]; [|done].
  unfold Mem.publish.
  by destruct (brokerFault env _).
Qed.

(** A resolved save of a comment keeps the link of the entity, stores a row
    that carries the entity's columns and the id of the linked issue, and
    touches neither the issues nor the broker. *)
Lemma commentSave_resolved env entity w c w' :
  Mem.commentSave env entity w = (Resolved c, w') →
  comment_issue c = comment_issue entity
  ∧ issueTable w' = issueTable w
  ∧ published w' = published w
  ∧ ∃ crow, crow ∈ commentTable w'
            ∧ row_issueId crow = Mem.issueIdOf entity
            ∧ comment_props c ⊆ row_props crow.
Proof.
  unfold Mem.commentSave, Mem.guarded.
  destruct (dbFault env _); [discriminate|].
  assert (Hupsert : ∀ t',
    t' = match filter (λ c0, prop "id" (row_props c0) = prop "id" (comment_props entity))
                 (commentTable w) with
         | [] => commentTable w ++
                   [{| row_props := comment_props entity;
                       row_issueId := Mem.issueIdOf entity |}]
         | _ => (λ c0, if decide (prop "id" (row_props c0) = prop "id" (comment_props entity))
                       then {| row_props := comment_props entity ∪ row_props c0;
                               row_issueId := Mem.issueIdOf entity |}
                       else c0) <$> commentTable w
         end →
    ∃ crow, crow ∈ t' ∧ row_issueId crow = Mem.issueIdOf entity
            ∧ comment_props entity ⊆ row_props crow).
  { intros t' ->.
    destruct (filter _ (commentTable w)) as [|c0 rest] eqn:Hf.
    - eexists. split; [apply elem_of_app; right; by left|]. done.
    - assert (Hc0 : c0 ∈ filter (λ c0, prop "id" (row_props c0)
                                       = prop "id" (comment_props entity))
                            (commentTable w)) by (rewrite Hf; by left).
      apply list_elem_of_filter in Hc0 as [Hid Hin].
      exists {| row_props := comment_props entity ∪ row_props c0;
                row_issueId := Mem.issueIdOf entity |}.
      split; [|split; [done | apply map_union_subseteq_l]].
      apply list_elem_of_fmap. exists c0. by rewrite decide_True. }
  destruct (prop "id" (comment_props entity)) eqn:Hid.
  - intros [= <- <-]. cbn. repeat split; try done.
    eexists. split; [apply elem_of_app; right; by left|]. done.
  - intros [= <- <-]. cbn. repeat split; try done. by apply Hupsert.
  - intros [= <- <-]. cbn. repeat split; try done. by apply Hupsert.
  - intros [= <- <-]. cbn. repeat split; try done. by apply Hupsert.
Qed.

(* ================================================================= *)
(** ** addComment *)

(** C5. [addComment] with an issue id for which no issue exists fails, with
    Not-Found whenever the fetch itself is not rejected by the store, and
    leaves the whole state as it was: no comment is stored and no event is
    published. *)
Theorem addComment_missing_issue env id dto w :
  Mem.rowsWithId (VStr id) (issueTable w) = [] →
  ∃ e, addComment (Mem.deps env) id dto w = (Rejected e, w)
       ∧ (dbFault env (IssueFindOne id []) = None →
          e = HttpException "Issue not found" NOT_FOUND).
Proof.
  intros Hrows. rewrite mem_addComment_eq, Hrows.
  destruct (dbFault env _) as [e|]; eauto. eexists; split; [done|discriminate].
Qed.

Lemma addComment_missing_issue_witness :
  Mem.rowsWithId (VStr "uuid-7") (issueTable worldA) = []
  ∧ addComment (Mem.deps envOk) "uuid-7" {["body" := VStr "hi"]} worldA
    = (Rejected (HttpException "Issue not found" NOT_FOUND), worldA).
Proof.
  split; [vm_compute; reflexivity|].
  destruct (addComment_missing_issue envOk "uuid-7" {["body" := VStr "hi"]} worldA)
    as (e & Heq & He); [vm_compute; reflexivity|].
  rewrite Heq, He; reflexivity.
Defined.

(** Whatever its outcome, a save of a comment leaves the issues alone. *)
Lemma commentSave_issueTable env entity w :
  issueTable (Mem.commentSave env entity w).2 = issueTable w.
Proof.
  unfold Mem.commentSave, Mem.guarded.
  destruct (dbFault env _); [done|].
  by destruct (prop "id" (comment_props entity)).
Qed.

(** Whatever its outcome, a save of a comment leaves in the comment table
    only rows that were there and rows keyed to the issue of the entity. *)
Lemma commentSave_rows env entity w crow :
  crow ∈ commentTable (Mem.commentSave env entity w).2 →
  crow ∈ commentTable w ∨ row_issueId crow = Mem.issueIdOf entity.
Proof.
  unfold Mem.commentSave, Mem.guarded.
  destruct (dbFault env _); [by left|].
  assert (Hupsert :
    crow ∈ match filter (λ c0, prop "id" (row_props c0)
                               = prop "id" (comment_props entity))
                   (commentTable w) with
           | [] => commentTable w ++
                     [{| row_props := comment_props entity;
                         row_issueId := Mem.issueIdOf entity |}]
           | _ => (λ c0, if decide (prop "id" (row_props c0)
                                    = prop "id" (comment_props entity))
                         then {| row_props := comment_props entity ∪ row_props c0;
                                 row_issueId := Mem.issueIdOf entity |}
                         else c0) <$> commentTable w
           end →
    crow ∈ commentTable w ∨ row_issueId crow = Mem.issueIdOf entity).
  { destruct (filter _ (commentTable w)).
    - intros [Hold|Hnew%list_elem_of_singleton]%elem_of_app; [by left|].
      right. by subst crow.
    - intros (c0 & -> & Hc0)%list_elem_of_fmap.
      destruct (decide _); [by right | by left]. }
  destruct (prop "id" (comment_props entity)) eqn:Hid; cbn; try exact Hupsert.
  intros [Hold|Hnew%list_elem_of_singleton]%elem_of_app; [by left|].
  right. by subst crow.
Qed.

(** C8. Every comment [addComment] stores belongs to the one issue it
    fetched. Whatever the outcome (also when the publication fails after
    the save), every comment row there afterwards was there before or is
    keyed to the given id, under which an issue exists, then and still;
    the issues are untouched. When [addComment] resolves, the comment
    returned is linked to the issue fetched under that id and its row is
    stored; and the comment table changes only if the issue exists. *)
Theorem addComment_links_fetched_issue env id dto w :
  let r := addComment (Mem.deps env) id dto w in
  (∀ crow, crow ∈ commentTable r.2 →
     crow ∈ commentTable w
     ∨ (row_issueId crow = VStr id
        ∧ ∃ row, row ∈ issueTable w ∧ row ∈ issueTable r.2
                 ∧ prop "id" row = VStr id))
  ∧ issueTable r.2 = issueTable w
  ∧ (∀ c, r.1 = Resolved c →
       ∃ row rest,
         Mem.rowsWithId (VStr id) (issueTable w) = row :: rest
         ∧ row ∈ issueTable w ∧ prop "id" row = VStr id
         ∧ comment_issue c = Some (Mem.entityOfRow row)
         ∧ ∃ crow, crow ∈ commentTable r.2
                   ∧ row_issueId crow = VStr id
                   ∧ comment_props c ⊆ row_props crow)
  ∧ (commentTable r.2 ≠ commentTable w →
     ∃ row, row ∈ issueTable w ∧ prop "id" row = VStr id).
Proof.
  intros r. unfold r. rewrite mem_addComment_eq.
  destruct (dbFault env _);
    [split; [by left|split; [done|split; [discriminate|done]]]|].
  destruct (Mem.rowsWithId _ _) as [|row rest] eqn:Hrows;
    [split; [by left|split; [done|split; [discriminate|done]]]|].
  destruct (rowsWithId_head _ _ _ _ Hrows) as [Hid Hin].
  cbn zeta.
  pose proof (commentSave_issueTable env
    (mkComment (delete "issue" dto) (Some (Mem.entityOfRow row))) w) as Hissues.
  pose proof (commentSave_rows env
    (mkComment (delete "issue" dto) (Some (Mem.entityOfRow row))) w) as Hrowsafter.
  unfold Mem.issueIdOf in Hrowsafter.
  cbn [comment_issue issue_props Mem.entityOfRow] in Hrowsafter.
  rewrite Hid in Hrowsafter.
  destruct (Mem.commentSave env _ w) as [[c1|e] w1] eqn:Hsave;
    cbn [snd] in Hissues, Hrowsafter.
  - assert (Hall : ∀ crow, crow ∈ commentTable w1 →
        crow ∈ commentTable w
        ∨ (row_issueId crow = VStr id
           ∧ ∃ row0, row0 ∈ issueTable w ∧ row0 ∈ issueTable w1
                     ∧ prop "id" row0 = VStr id)).
    { intros crow [Hold|Hnew]%Hrowsafter; [by left|].
      right. split; [done|]. exists row. by rewrite Hissues. }
    apply commentSave_resolved in Hsave as (Hlink & _ & _ & crow & Hc & Hfk & Hsub).
    unfold Mem.issueIdOf in Hfk. cbn in Hlink, Hfk. rewrite Hid in Hfk.
    destruct (brokerFault env _); cbn [fst snd Mem.log_event issueTable commentTable].
    + split; [exact Hall|split; [done|split; [discriminate|]]].
      intros _. by exists row.
    + split; [exact Hall|split; [done|split]].
      * intros c [= <-]. exists row, rest. repeat split; try done. by exists crow.
      * intros _. by exists row.
  - cbn [fst snd]. split; [|split; [done|split; [discriminate|]]].
    + intros crow [Hold|Hnew]%Hrowsafter; [by left|].
      right. split; [done|]. exists row. by rewrite Hissues.
    + intros _. by exists row.
Qed.

Lemma addComment_links_fetched_issue_witness :
  let r := addComment (Mem.deps envNewsDown) "uuid-0" commentHi worldA in
  r.1 = Rejected (Failure "channel closed")
  ∧ commentTable r.2 ≠ commentTable worldA
  ∧ (∀ crow, crow ∈ commentTable r.2 →
       row_issueId crow = VStr "uuid-0"
       ∧ ∃ row, row ∈ issueTable r.2 ∧ prop "id" row = VStr "uuid-0").
Proof.
  intros r.
  destruct (addComment_links_fetched_issue envNewsDown "uuid-0" commentHi worldA)
    as (Hall & _).
  split; [vm_compute; reflexivity|]. split; [vm_compute; discriminate|].
  intros crow Hc. destruct (Hall crow Hc) as [Hold|(Hfk & row & _ & Hrow & Hid)].
  - revert Hold. vm_compute. by intros ?%elem_of_nil.
  - split; [exact Hfk|]. by exists row.
Defined.

(* ================================================================= *)
(** ** update *)

Lemma set_issueTable_same w : Mem.set_issueTable (issueTable w) w = w.
Proof. by destruct w. Qed.

(** With no [id] among the partial fields, the rows found under an id after
    the update are the rows found before it, with the fields applied. *)
Lemma rowsWithId_updateRows id (dto : Obj) (t : list Obj) :
  dto !! "id" = None →
  Mem.rowsWithId id (Mem.updateRows id dto t) = (λ r, dto ∪ r) <$> Mem.rowsWithId id t.
Proof.
  intros Hid. unfold Mem.rowsWithId, Mem.updateRows.
  induction t as [|r t IH]; [done|].
  rewrite fmap_cons, !filter_cons.
  destruct (decide (prop "id" r = id)) as [Hr|Hr].
  - rewrite decide_True.
    + rewrite fmap_cons. by f_equal.
    + unfold prop in *. by rewrite lookup_union_r.
  - by rewrite decide_False.
Qed.

Lemma updateScopesOf_cases (dto : Obj) :
  updateScopesOf dto =
  (if has_key "title" dto then [TITLE] else [])
  ++ (if has_key "description" dto then [DESCRIPTION] else [])
  ++ (if has_key "status" dto then [STATUS] else []).
Proof.
  unfold updateScopesOf.
  by destruct (has_key "title" dto), (has_key "description" dto),
    (has_key "status" dto).
Qed.

(** What [update] publishes whenever it resolves. *)
Lemma mem_update_resolved env id dto w issue w' :
  update (Mem.deps env) id dto w = (Resolved issue, w') →
  published w' = published w
                 ++ [mkEvent "news" "news.issue.update" (updatePayload dto issue)].
Proof.
  rewrite mem_update_eq.
  destruct (dbFault env (IssueUpdate _ _)); [discriminate|].
  destruct (dbFault env (IssueFindOne _ _)); [discriminate|].
  destruct (Mem.rowsWithId _ _) as [|r rest]; [discriminate|].
  cbn zeta. destruct (brokerFault env _); [discriminate|].
  by intros [= <- <-].
Qed.

(** C2. The scopes of an update are decided by the presence of the keys
    [title], [description] and [status] in the input alone: each scope is
    there exactly when its key is, the stored issue plays no part, and the
    event of every update that resolves carries these scopes; an update
    with only [{status: X}] carries [[STATUS]] for every [X], whatever the
    stored status is. *)
Theorem updateScopes_presence_based :
  (∀ dto : Obj,
     (TITLE ∈ updateScopesOf dto ↔ is_Some (dto !! "title"))
     ∧ (DESCRIPTION ∈ updateScopesOf dto ↔ is_Some (dto !! "description"))
     ∧ (STATUS ∈ updateScopesOf dto ↔ is_Some (dto !! "status")))
  ∧ (∀ env id dto w issue w',
       update (Mem.deps env) id dto w = (Resolved issue, w') →
       ∃ msg, published w' = published w ++ [mkEvent "news" "news.issue.update" msg]
              ∧ msg !! "updateScopes" = Some (VScopes (updateScopesOf dto)))
  ∧ (∀ X, updateScopesOf {["status" := X]} = [STATUS])
  ∧ (∀ env id X w issue w',
       update (Mem.deps env) id {["status" := X]} w = (Resolved issue, w') →
       ∃ msg, published w' = published w ++ [mkEvent "news" "news.issue.update" msg]
              ∧ msg !! "updateScopes" = Some (VScopes [STATUS])).
Proof.
  assert (Hone : ∀ X, updateScopesOf {["status" := X]} = [STATUS]).
  { intros X. unfold updateScopesOf.
    rewrite (proj2 (has_key_false "title" _)) by done.
    rewrite (proj2 (has_key_false "description" _)) by done.
    rewrite (proj2 (has_key_true "status" _)); [done|].
    rewrite lookup_singleton_eq. eauto. }
  assert (Hpub : ∀ env id dto w issue w',
    update (Mem.deps env) id dto w = (Resolved issue, w') →
    ∃ msg, published w' = published w ++ [mkEvent "news" "news.issue.update" msg]
           ∧ msg !! "updateScopes" = Some (VScopes (updateScopesOf dto))).
  { intros env id dto w issue w' H. apply mem_update_resolved in H.
    eexists. split; [exact H|]. unfold updatePayload. apply lookup_insert_eq. }
  split; [|split; [exact Hpub | split; [exact Hone|]]].
  - intros dto. rewrite updateScopesOf_cases, <- !has_key_true.
    destruct (has_key "title" dto), (has_key "description" dto),
      (has_key "status" dto); cbn;
      rewrite ?elem_of_cons, ?elem_of_nil; intuition congruence.
  - intros env id X w issue w' H. rewrite <- (Hone X). by eapply Hpub.
Qed.

Lemma updateScopes_presence_based_witness :
  let r := update (Mem.deps envOk) "uuid-0" {["status" := VStr "open"]} worldB in
  (∀ row, row ∈ issueTable worldB → prop "status" row = VStr "open")
  ∧ ∃ msg, published r.2 = published worldB ++ [mkEvent "news" "news.issue.update" msg]
           ∧ msg !! "updateScopes" = Some (VScopes [STATUS]).
Proof.
  intros r. split.
  - intros row Hrow. apply list_elem_of_singleton in Hrow. subst row.
    vm_compute. reflexivity.
  - destruct updateScopes_presence_based as (_ & _ & _ & H).
    eapply (H envOk "uuid-0" (VStr "open") worldB _ r.2).
    vm_compute. reflexivity.
Defined.

(** C7. When no issue is found under the id after the update attempt,
    [update] fails with Not-Found and nothing is published (if no issue was
    there before the attempt either, nothing changes at all); more
    generally a rejected [update] has published nothing, so the
    [news.issue.update] event appears only when [update] resolves. *)
Theorem update_missing_issue env id dto w :
  let w1 := Mem.set_issueTable (Mem.updateRows (VStr id) dto (issueTable w)) w in
  (Mem.rowsWithId (VStr id) (issueTable w1) = [] →
   dbFault env (IssueUpdate id dto) = None →
   dbFault env (IssueFindOne id []) = None →
   update (Mem.deps env) id dto w
   = (Rejected (HttpException "Issue not found" NOT_FOUND), w1)
   ∧ published w1 = published w)
  ∧ (Mem.rowsWithId (VStr id) (issueTable w) = [] →
     w1 = w ∧ Mem.rowsWithId (VStr id) (issueTable w1) = [])
  ∧ (∀ e w', update (Mem.deps env) id dto w = (Rejected e, w') →
             published w' = published w)
  ∧ (published (update (Mem.deps env) id dto w).2 ≠ published w →
     ∃ issue, (update (Mem.deps env) id dto w).1 = Resolved issue).
Proof.
  intros w1. rewrite mem_update_eq. fold w1.
  split; [|split; [|split]].
  - intros Hrows Hupd Hfind. by rewrite Hupd, Hfind, Hrows.
  - intros Hrows. unfold w1. rewrite update_no_match by done.
    by rewrite set_issueTable_same.
  - intros e w'.
    destruct (dbFault env (IssueUpdate _ _)); [by intros [= _ <-]|].
    destruct (dbFault env (IssueFindOne _ _)); [by intros [= _ <-]|].
    destruct (Mem.rowsWithId _ _); [by intros [= _ <-]|].
    cbn zeta. destruct (brokerFault env _); [by intros [= _ <-]|discriminate].
  - destruct (dbFault env (IssueUpdate _ _)); [done|].
    destruct (dbFault env (IssueFindOne _ _)); [done|].
    destruct (Mem.rowsWithId _ _); [done|].
    cbn zeta. destruct (brokerFault env _); [done|eauto].
Qed.

Lemma update_missing_issue_witness :
  update (Mem.deps envOk) "uuid-9" {["title" := VStr "Bug A2"]} worldA
  = (Rejected (HttpException "Issue not found" NOT_FOUND), worldA)
  ∧ published worldA
    = [mkEvent "direct-exchange" "project.issue.created" {["uuid" := VStr "uuid-0"]};
       mkEvent "news" "news.issue.create" (<["issueId" := VStr "uuid-0"]> bugA)].
Proof.
  destruct (update_missing_issue envOk "uuid-9" {["title" := VStr "Bug A2"]} worldA)
    as (Hfail & Hsame & _ & _).
  destruct Hsame as [Hw _]; [vm_compute; reflexivity|].
  destruct Hfail as [Hfail _]; [vm_compute; reflexivity | reflexivity | reflexivity |].
  rewrite Hw in Hfail. split; [exact Hfail | vm_compute; reflexivity].
Defined.

(** C9, as the code has it. The scopes of an update are the part of the
    fixed sequence [TITLE, DESCRIPTION, STATUS] whose keys the input has,
    in that order, however the input lists its keys, and the empty list
    when it has none of them. With none of the three keys the
    [news.issue.update] event is published, with an empty list of scopes,
    once the repository has accepted the update and the issue is found
    again under the same id, over any collaborators; and every such update
    that resolves has published exactly that event. *)
Theorem updateScopes_fixed_order :
  (∀ dto : Obj,
     updateScopesOf dto = (filter (λ p, is_Some (dto !! p.1)) scopeKeys).*2)
  ∧ (∀ l1 l2 : list (string * Value),
       l1 ≡ₚ l2 → updateScopesOf (fromEntries l1) = updateScopesOf (fromEntries l2))
  ∧ (∀ (W : Type) (deps : Deps W) id (dto : Obj) w u w1 issue w2,
       dto !! "title" = None → dto !! "description" = None → dto !! "status" = None →
       issueRepository_update deps id dto w = (Resolved u, w1) →
       issueRepository_findOne deps id [] w1 = (Resolved (Some issue), w2) →
       let msg :=
         <["updateScopes" := VScopes []]>
           (<["issueId" := prop "id" (issue_props issue)]>
              (<["projectId" := prop "projectId" (issue_props issue)]> dto)) in
       update deps id dto w
       = bind (amqpConnection_publish deps "news" "news.issue.update" msg)
              (λ _, ret issue) w2)
  ∧ (∀ env id (dto : Obj) w issue w',
       dto !! "title" = None → dto !! "description" = None → dto !! "status" = None →
       update (Mem.deps env) id dto w = (Resolved issue, w') →
       ∃ msg, published w' = published w ++ [mkEvent "news" "news.issue.update" msg]
              ∧ msg !! "updateScopes" = Some (VScopes [])).
Proof.
  assert (Hnone : ∀ dto : Obj,
    dto !! "title" = None → dto !! "description" = None → dto !! "status" = None →
    updateScopesOf dto = []).
  { intros dto Ht Hd Hs. unfold updateScopesOf.
    by rewrite !(proj2 (has_key_false _ _)) by done. }
  split; [|split; [|split]].
  - intros dto. rewrite updateScopesOf_cases. unfold scopeKeys, has_key.
    rewrite !filter_cons, filter_nil. cbn [fst].
    destruct (decide (is_Some (dto !! "title")));
      destruct (decide (is_Some (dto !! "description")));
      destruct (decide (is_Some (dto !! "status")));
      repeat case_bool_decide; done.
  - intros l1 l2 Hp. unfold updateScopesOf.
    by rewrite !(has_key_fromEntries_perm l1 l2) by done.
  - intros W deps id dto w [] w1 issue w2 Ht Hd Hs Hupd Hfind msg.
    rewrite (update_found deps id dto w w1 issue w2 Hupd Hfind).
    unfold updatePayload, msg. by rewrite Hnone.
  - intros env id dto w issue w' Ht Hd Hs H.
    apply mem_update_resolved in H. eexists. split; [exact H|].
    unfold updatePayload. rewrite Hnone by done. apply lookup_insert_eq.
Qed.

Lemma updateScopes_fixed_order_witness :
  let r := update (Mem.deps envOk) "uuid-0" moveProject worldA in
  (∃ issue, r.1 = Resolved issue)
  ∧ ∃ msg, published r.2
           = published worldA ++ [mkEvent "news" "news.issue.update" msg]
           ∧ msg !! "updateScopes" = Some (VScopes []).
Proof.
  intros r. split; [eexists; vm_compute; reflexivity|].
  destruct updateScopes_fixed_order as (_ & _ & _ & H).
  eapply (H envOk "uuid-0" moveProject worldA _ r.2); vm_compute; reflexivity.
Defined.

(** C9, as the spec states it, fails: not every update of an existing issue
    with none of the three keys publishes the event. Partial fields that
    change the id have none of the three keys; the issue [uuid-0] exists;
    yet the re-read under [uuid-0] finds nothing, [update] fails with
    Not-Found and nothing is published. *)
Lemma update_without_scope_keys_publishes_nothing :
  let r := update (Mem.deps envOk) "uuid-0" moveId worldA in
  Mem.rowsWithId (VStr "uuid-0") (issueTable worldA) = [<["id" := VStr "uuid-0"]> bugA]
  ∧ moveId !! "title" = None ∧ moveId !! "description" = None
  ∧ moveId !! "status" = None
  ∧ updateScopesOf moveId = []
  ∧ r.1 = Rejected (HttpException "Issue not found" NOT_FOUND)
  ∧ published r.2 = published worldA.
Proof.
  cbn zeta. repeat split; vm_compute; reflexivity.
Qed.

(* ================================================================= *)
(** ** create *)

(** C3. A [create] of an input that brings no id of its own resolves when
    the save and both publications go through, and only then; it stores
    one new row, returns the entity with the generated id and every field
    of the input, and publishes exactly two events, in this order:
    [project.issue.created] on [direct-exchange] with [{ uuid }], and
    [news.issue.create] on [news] with the input plus [issueId]. The id
    returned is the one the store generated, so over a store as the spec
    describes it, it is not empty. *)
Theorem create_success env (dto : Obj) w :
  dto !! "id" = None →
  let newId := genId env (nextId w) in
  let issue := mkIssue (<["id" := VStr newId]> dto) None in
  let ev1 := mkEvent "direct-exchange" "project.issue.created"
               {["uuid" := VStr newId]} in
  let ev2 := mkEvent "news" "news.issue.create" (<["issueId" := VStr newId]> dto) in
  let w' := {| issueTable := issueTable w ++ [issue_props issue];
               commentTable := commentTable w;
               published := published w ++ [ev1; ev2];
               consoleLog := consoleLog w;
               nextId := S (nextId w) |} in
  (∀ issue0 w0, create (Mem.deps env) dto w = (Resolved issue0, w0) →
                issue0 = issue ∧ w0 = w')
  ∧ (dbFault env (IssueSave (mkIssue dto None)) = None →
     brokerFault env ev1 = None → brokerFault env ev2 = None →
     create (Mem.deps env) dto w = (Resolved issue, w'))
  ∧ prop "id" (issue_props issue) = VStr newId
  ∧ (∀ st : Store, store_env st = env → newId ≠ "")
  ∧ (∀ k v, dto !! k = Some v → issue_props issue !! k = Some v).
Proof.
  intros Hid newId issue ev1 ev2 w'.
  assert (Hw' : Mem.log_event ev2 (Mem.log_event ev1
                  (Mem.bump_nextId
                     (Mem.set_issueTable (issueTable w ++ [issue_props issue]) w)))
                = w').
  { unfold w', Mem.log_event; cbn. by rewrite <- app_assoc. }
  rewrite mem_create_eq by done. fold newId ev1 ev2 issue.
  split; [|split; [|split; [|split]]].
  - intros issue0 w0.
    destruct (dbFault env _); [discriminate|].
    destruct (brokerFault env ev1); [discriminate|].
    destruct (brokerFault env ev2); [discriminate|].
    intros [= <- <-]. by rewrite <- Hw'.
  - intros -> -> ->. by rewrite <- Hw'.
  - unfold prop, issue; cbn. by rewrite lookup_insert_eq.
  - intros st <-. apply store_ids_nonempty.
  - intros k v Hk. unfold issue; cbn.
    rewrite lookup_insert_ne; [done|]. intros <-. congruence.
Qed.

Lemma create_success_witness :
  create (Mem.deps envOk) bugA emptyWorld
  = (Resolved (mkIssue (<["id" := VStr "uuid-0"]> bugA) None),
     {| issueTable := [<["id" := VStr "uuid-0"]> bugA];
        commentTable := [];
        published :=
          [mkEvent "direct-exchange" "project.issue.created"
             {["uuid" := VStr "uuid-0"]};
           mkEvent "news" "news.issue.create" (<["issueId" := VStr "uuid-0"]> bugA)];
        consoleLog := [];
        nextId := 1 |})
  ∧ genId envOk (nextId emptyWorld) ≠ "".
Proof.
  destruct (create_success envOk bugA emptyWorld) as (_ & H & _ & Hne & _);
    [vm_compute; reflexivity |].
  split; [apply H; reflexivity | exact (Hne storeOk eq_refl)].
Defined.

(** C1, as the code has it. Every failure inside [create] is caught and
    translated: whether the save or either of the two publications is
    rejected, [create] logs the error and fails with the Internal-Error
    [Could not save issue]; it never fails with anything else. What was
    done before the failure stays done. *)
Theorem create_failures_translated {W} (deps : Deps W) (dto : Obj) (w : W) :
  let internal := HttpException "Could not save issue" INTERNAL_SERVER_ERROR in
  let newIssue := issueRepository_create deps dto in
  let publish1 (saved : Issue) :=
    amqpConnection_publish deps "direct-exchange" "project.issue.created"
      {["uuid" := prop "id" (issue_props saved)]} in
  let publish2 (saved : Issue) :=
    amqpConnection_publish deps "news" "news.issue.create"
      (<["issueId" := prop "id" (issue_props saved)]> dto) in
  (∀ e w', create deps dto w = (Rejected e, w') → e = internal)
  ∧ (∀ e w1,
       issueRepository_save deps newIssue w = (Rejected e, w1) →
       create deps dto w = (Rejected internal, console_error deps e w1))
  ∧ (∀ saved w1 e w2,
       issueRepository_save deps newIssue w = (Resolved saved, w1) →
       publish1 saved w1 = (Rejected e, w2) →
       create deps dto w = (Rejected internal, console_error deps e w2))
  ∧ (∀ saved w1 u w2 e w3,
       issueRepository_save deps newIssue w = (Resolved saved, w1) →
       publish1 saved w1 = (Resolved u, w2) →
       publish2 saved w2 = (Rejected e, w3) →
       create deps dto w = (Rejected internal, console_error deps e w3)).
Proof.
  intros internal newIssue publish1 publish2.
  unfold create, tryCatch, bind, effect, throw, ret.
  fold newIssue. split; [|split; [|split]].
  - intros e w'.
    destruct (issueRepository_save deps newIssue w) as [[saved|e1] w1];
      [|by intros [= <- _]].
    destruct (amqpConnection_publish deps "direct-exchange" _ _ w1) as [[u|e1] w2];
      [|by intros [= <- _]].
    destruct (amqpConnection_publish deps "news" _ _ w2) as [[u'|e1] w3];
      [discriminate | by intros [= <- _]].
  - by intros e w1 ->.
  - unfold publish1. by intros saved w1 e w2 -> ->.
  - unfold publish1, publish2. by intros saved w1 u w2 e w3 -> -> ->.
Qed.

Lemma create_failures_translated_witness :
  create (Mem.deps envNewsDown) bugA emptyWorld
  = (Rejected (HttpException "Could not save issue" INTERNAL_SERVER_ERROR),
     {| issueTable := [<["id" := VStr "uuid-0"]> bugA];
        commentTable := [];
        published :=
          [mkEvent "direct-exchange" "project.issue.created"
             {["uuid" := VStr "uuid-0"]}];
        consoleLog := [Failure "channel closed"];
        nextId := 1 |}).
Proof.
  destruct (create_failures_translated (Mem.deps envNewsDown) bugA emptyWorld)
    as (_ & _ & _ & H).
  erewrite H; [| vm_compute; reflexivity ..].
  vm_compute. reflexivity.
Defined.

(** C1, as the spec states it, fails: with the save done and a publication
    rejected by the broker with [channel closed] (the first one when the
    broker is down, the second one when only [news] is), [create] does not
    fail with that error but with the Internal-Error. *)
Lemma create_publish_failure_is_caught :
  let internal := HttpException "Could not save issue" INTERNAL_SERVER_ERROR in
  let r1 := create (Mem.deps envBrokerDown) bugA emptyWorld in
  let r2 := create (Mem.deps envNewsDown) bugA emptyWorld in
  dbFault envBrokerDown (IssueSave (Mem.issueCreate bugA)) = None
  ∧ issueTable r1.2 = [<["id" := VStr "uuid-0"]> bugA]
  ∧ brokerFault envBrokerDown
      (mkEvent "direct-exchange" "project.issue.created" {["uuid" := VStr "uuid-0"]})
    = Some (Failure "channel closed")
  ∧ r1.1 ≠ Rejected (Failure "channel closed")
  ∧ r1.1 = Rejected internal
  ∧ dbFault envNewsDown (IssueSave (Mem.issueCreate bugA)) = None
  ∧ issueTable r2.2 = [<["id" := VStr "uuid-0"]> bugA]
  ∧ brokerFault envNewsDown
      (mkEvent "news" "news.issue.create" (<["issueId" := VStr "uuid-0"]> bugA))
    = Some (Failure "channel closed")
  ∧ r2.1 ≠ Rejected (Failure "channel closed")
  ∧ r2.1 = Rejected internal.
Proof.
  cbn zeta. repeat split; try (vm_compute; reflexivity); vm_compute; discriminate.
Qed.

(* ================================================================= *)
(** ** remove *)

Lemma deletePayload_entries (row : Obj) :
  deletePayload (Mem.entityOfRow row)
  = fromEntries [("title", prop "title" row); ("description", prop "description" row);
                 ("projectId", prop "projectId" row); ("issueId", prop "id" row)].
Proof.
  unfold deletePayload, fromEntries. cbn [foldl fst snd Mem.entityOfRow issue_props].
  by rewrite insert_empty.
Qed.

(** C4. [remove] fetches the issue first and fails with Not-Found when
    there is none; when the delete then reports no affected row it fails
    with Not-Found, having published nothing; otherwise it publishes
    [project.issue.deleted] on [direct-exchange] with [{ uuid }] and then
    [news.issue.delete] on [news] with the title, description, projectId
    and id the issue had before it was deleted. It resolves on an existing
    issue when nothing is rejected, and after it resolved [findOne] on the
    same id fails with Not-Found. *)
Theorem remove_contract env id w :
  let ev1 := mkEvent "direct-exchange" "project.issue.deleted"
               {["uuid" := VStr id]} in
  let ev2 (row : Obj) :=
    mkEvent "news" "news.issue.delete"
      (fromEntries [("title", prop "title" row);
                    ("description", prop "description" row);
                    ("projectId", prop "projectId" row);
                    ("issueId", VStr id)]) in
  let deleted (row : Obj) :=
    {| issueTable := Mem.deleteRows (VStr id) (issueTable w);
       commentTable := commentTable w;
       published := published w ++ [ev1; ev2 row];
       consoleLog := consoleLog w;
       nextId := nextId w |} in
  (Mem.rowsWithId (VStr id) (issueTable w) = [] →
   dbFault env (IssueFindOne id []) = None →
   remove (Mem.deps env) id w
   = (Rejected (HttpException "Issue not found" NOT_FOUND), w))
  ∧ (∀ (W : Type) (deps : Deps W) (w0 : W) issue w1 report w2,
       issueRepository_findOne deps id [] w0 = (Resolved (Some issue), w1) →
       issueRepository_delete deps id w1 = (Resolved report, w2) →
       falsy_count (affected report) = true →
       remove deps id w0 = (Rejected (HttpException "Post not found" NOT_FOUND), w2))
  ∧ (∀ row rest,
       Mem.rowsWithId (VStr id) (issueTable w) = row :: rest →
       dbFault env (IssueFindOne id []) = None →
       dbFault env (IssueDelete id) = None →
       brokerFault env ev1 = None → brokerFault env (ev2 row) = None →
       remove (Mem.deps env) id w = (Resolved tt, deleted row))
  ∧ (∀ w', remove (Mem.deps env) id w = (Resolved tt, w') →
       ∃ row rest,
         Mem.rowsWithId (VStr id) (issueTable w) = row :: rest
         ∧ w' = deleted row
         ∧ findOne (Mem.deps env) id w'
           = (Rejected (HttpException "Issue not found" NOT_FOUND), w')).
Proof.
  intros ev1 ev2 deleted.
  assert (Hev2 : ∀ row rest t,
    Mem.rowsWithId (VStr id) t = row :: rest →
    mkEvent "news" "news.issue.delete" (deletePayload (Mem.entityOfRow row)) = ev2 row).
  { intros row rest t Hrows. destruct (rowsWithId_head _ _ _ _ Hrows) as [Hid _].
    unfold ev2. by rewrite deletePayload_entries, Hid. }
  assert (Hw : ∀ row,
    Mem.log_event (ev2 row) (Mem.log_event ev1
      (Mem.set_issueTable (Mem.deleteRows (VStr id) (issueTable w)) w)) = deleted row).
  { intros row. unfold deleted, Mem.log_event; cbn. by rewrite <- app_assoc. }
  split; [|split; [|split]].
  - intros Hrows Hfind. by rewrite mem_remove_eq, Hfind, Hrows.
  - intros W deps w0 issue w1 report w2. apply remove_zero_affected.
  - intros row rest Hrows Hfind Hdel Hp1 Hp2.
    rewrite mem_remove_eq, Hfind, Hrows, Hdel. cbn zeta.
    rewrite (Hev2 _ _ _ Hrows). fold ev1. by rewrite Hp1, Hp2, Hw.
  - intros w'. rewrite mem_remove_eq.
    destruct (dbFault env (IssueFindOne id [])) eqn:Hfind; [discriminate|].
    destruct (Mem.rowsWithId _ _) as [|row rest] eqn:Hrows; [discriminate|].
    cbn zeta. rewrite (Hev2 _ _ _ Hrows). fold ev1.
    destruct (dbFault env (IssueDelete id)); [discriminate|].
    destruct (brokerFault env ev1); [discriminate|].
    destruct (brokerFault env (ev2 row)); [discriminate|].
    rewrite Hw. intros [= <-]. exists row, rest. split; [done|split; [done|]].
    rewrite mem_findOne_eq, Hfind. cbn [issueTable deleted].
    by rewrite rowsWithId_deleted.
Qed.

Lemma remove_contract_witness :
  remove (Mem.deps envOk) "uuid-7" worldA
  = (Rejected (HttpException "Issue not found" NOT_FOUND), worldA)
  ∧ remove (depsRacingDelete envOk) "uuid-0" worldA
    = (Rejected (HttpException "Post not found" NOT_FOUND),
       Mem.set_issueTable [] worldA)
  ∧ (∃ w', remove (Mem.deps envOk) "uuid-0" worldA = (Resolved tt, w')
           ∧ issueTable w' = []
           ∧ findOne (Mem.deps envOk) "uuid-0" w'
             = (Rejected (HttpException "Issue not found" NOT_FOUND), w')).
Proof.
  destruct (remove_contract envOk "uuid-7" worldA) as (Habsent & _).
  destruct (remove_contract envOk "uuid-0" worldA) as (_ & Hzero & Hok & Hafter).
  split; [|split].
  - apply Habsent; vm_compute; reflexivity.
  - apply (Hzero World (depsRacingDelete envOk) worldA
             (Mem.entityOfRow (<["id" := VStr "uuid-0"]> bugA)) worldA
             {| affected := Some 0 |}); vm_compute; reflexivity.
  - eexists. split; [apply (Hok (<["id" := VStr "uuid-0"]> bugA) []); reflexivity|].
    split; [reflexivity|].
    destruct (Hafter _ (Hok (<["id" := VStr "uuid-0"]> bugA) [] eq_refl eq_refl
                          eq_refl eq_refl eq_refl))
      as (row & rest & _ & _ & Hfind).
    exact Hfind.
Defined.

(* ================================================================= *)
(** ** findAllCommentsForIssue *)

(** When the issue exists and the store answers, the method resolves with
    the issue and the comments stored for it. *)
Lemma findAllCommentsForIssue_existing env id w row rest :
  Mem.rowsWithId (VStr id) (issueTable w) = row :: rest →
  dbFault env (IssueFindOne id ["comments"]) = None →
  findAllCommentsForIssue (Mem.deps env) id w
  = (Resolved (Some {| issue_props := row;
                       issue_comments :=
                         Some (Mem.commentsOf (VStr id) (commentTable w)) |}), w).
Proof.
  intros Hrows Hfind. unfold findAllCommentsForIssue, truthy_promise.
  change (issueRepository_findOne (Mem.deps env)) with (Mem.issueFindOne env).
  unfold Mem.issueFindOne. rewrite guarded_ok, Hrows by done.
  rewrite decide_True; [done | by left].
Qed.

(** C6, where the code departs from it. [findAllCommentsForIssue] tests the
    promise of the repository, not its result, so it never takes the
    Not-Found branch: it settles exactly as the repository call does, and
    for an id under which there is no issue it resolves with [undefined],
    where [findOne] on the same state fails with Not-Found. *)
Theorem findAllCommentsForIssue_missing_resolves_undefined :
  (∀ (W : Type) (deps : Deps W) id,
     findAllCommentsForIssue deps id = issueRepository_findOne deps id ["comments"])
  ∧ Mem.rowsWithId (VStr "uuid-7") (issueTable worldA) = []
  ∧ findAllCommentsForIssue (Mem.deps envOk) "uuid-7" worldA = (Resolved None, worldA)
  ∧ findOne (Mem.deps envOk) "uuid-7" worldA
    = (Rejected (HttpException "Issue not found" NOT_FOUND), worldA).
Proof.
  split; [done|]. repeat split; vm_compute; reflexivity.
Qed.

(* ================================================================= *)
(** ** The read operations *)

(** The reads of the in-memory store answer from the state as it is. *)
Lemma guarded_read_pure {A} env call (f : World → A) w :
  (Mem.guarded env call (λ w, (Resolved (f w), w)) w).2 = w.
Proof. unfold Mem.guarded. by destruct (dbFault env call). Qed.

Section Reads.
Context {W : Type}.
Variable deps : Deps W.
Hypothesis find_pure : ∀ w, (issueRepository_find deps w).2 = w.
Hypothesis getMany_pure : ∀ p w, (issueRepository_getManyByProject deps p w).2 = w.
Hypothesis findOne_pure : ∀ id rels w, (issueRepository_findOne deps id rels w).2 = w.
Hypothesis comments_pure : ∀ w, (commentRepository_find deps w).2 = w.

(** Over collaborators whose queries change nothing, the four read
    operations change nothing: they only query. *)
Lemma reads_only_query w :
  (findAll deps w).2 = w
  ∧ (∀ projectId, (findAllForProject deps projectId w).2 = w)
  ∧ (∀ issueId, (findOne deps issueId w).2 = w)
  ∧ (findAllComments deps w).2 = w.
Proof.
  repeat split; try done.
  intros issueId. unfold findOne, bind.
  specialize (findOne_pure issueId [] w).
  destruct (issueRepository_findOne deps issueId [] w) as [[[issue|]|e] w'];
    cbn in *; done.
Qed.

End Reads.

(** C10. [findAll], [findAllForProject], [findOne] and [findAllComments]
    leave the state exactly as it was, for every input and whether or not
    the store answers: no issue or comment record changes and no event is
    published. *)
Theorem reads_change_nothing env w :
  (findAll (Mem.deps env) w).2 = w
  ∧ (∀ projectId, (findAllForProject (Mem.deps env) projectId w).2 = w)
  ∧ (∀ issueId, (findOne (Mem.deps env) issueId w).2 = w)
  ∧ (findAllComments (Mem.deps env) w).2 = w.
Proof.
  apply reads_only_query.
  - intros w0. apply guarded_read_pure.
  - intros p w0. apply guarded_read_pure.
  - intros id rels w0. apply (guarded_read_pure env (IssueFindOne id rels)).
  - intros w0. apply guarded_read_pure.
Qed.

(* ================================================================= *)
(** ** addComment, continued *)

Lemma mem_commentSave_fresh env entity w :
  comment_props entity !! "id" = None →
  Mem.commentSave env entity w =
  match dbFault env (CommentSave entity) with
  | Some e => (Rejected e, w)
  | None =>
      let props := <["id" := VStr (genId env (nextId w))]> (comment_props entity) in
      (Resolved {| comment_props := props; comment_issue := comment_issue entity |},
       Mem.bump_nextId
         (Mem.set_commentTable
            (commentTable w ++
               [{| row_props := props; row_issueId := Mem.issueIdOf entity |}]) w))
  end.
Proof.
  intros Hid. unfold Mem.commentSave, Mem.guarded.
  destruct (dbFault env _); [done|].
  unfold prop. by rewrite Hid.
Qed.

(** [addComment] on an existing issue, for an input without an id of its
    own, case by case. *)
Lemma mem_addComment_fresh env id (dto : Obj) w row rest :
  Mem.rowsWithId (VStr id) (issueTable w) = row :: rest →
  dto !! "id" = None →
  let issue := Mem.entityOfRow row in
  let entity := mkComment (delete "issue" dto) (Some issue) in
  let props := <["id" := VStr (genId env (nextId w))]> (delete "issue" dto) in
  let w1 := {| issueTable := issueTable w;
               commentTable := commentTable w ++ [mkCommentRow props (VStr id)];
               published := published w;
               consoleLog := consoleLog w;
               nextId := S (nextId w) |} in
  let ev := mkEvent "news" "news.issue.update" (commentPayload dto issue) in
  addComment (Mem.deps env) id dto w =
  match dbFault env (IssueFindOne id []) with
  | Some e => (Rejected e, w)
  | None =>
      match dbFault env (CommentSave entity) with
      | Some e => (Rejected e, w)
      | None =>
          match brokerFault env ev with
          | Some e => (Rejected e, w1)
          | None => (Resolved (mkComment props (Some issue)), Mem.log_event ev w1)
          end
      end
  end.
Proof.
  intros Hrows Hid issue entity props w1 ev.
  destruct (rowsWithId_head _ _ _ _ Hrows) as [Hrowid _].
  rewrite mem_addComment_eq, Hrows.
  destruct (dbFault env (IssueFindOne _ _)); [done|].
  cbn zeta. fold issue entity.
  rewrite mem_commentSave_fresh
    by (unfold entity; cbn; by rewrite lookup_delete_ne).
  destruct (dbFault env (CommentSave entity)); [done|].
  cbn zeta. unfold Mem.issueIdOf, entity, issue; cbn. rewrite Hrowid.
  done.
Qed.

(** X1. [addComment] on an existing issue, with an input that brings no id
    of its own, resolves when the fetch, the save and the publication go
    through, and only then; it stores exactly one comment row, keyed to the
    issue, returns the comment with the generated id and linked to the
    fetched issue, publishes exactly one [news.issue.update] event on
    [news], and leaves the issues as they were. *)
Theorem addComment_success env id (dto : Obj) w row rest :
  Mem.rowsWithId (VStr id) (issueTable w) = row :: rest →
  dto !! "id" = None →
  let issue := Mem.entityOfRow row in
  let props := <["id" := VStr (genId env (nextId w))]> (delete "issue" dto) in
  let comment := mkComment props (Some issue) in
  let ev := mkEvent "news" "news.issue.update" (commentPayload dto issue) in
  let w' := {| issueTable := issueTable w;
               commentTable := commentTable w ++ [mkCommentRow props (VStr id)];
               published := published w ++ [ev];
               consoleLog := consoleLog w;
               nextId := S (nextId w) |} in
  (dbFault env (IssueFindOne id []) = None →
   dbFault env (CommentSave (mkComment (delete "issue" dto) (Some issue))) = None →
   brokerFault env ev = None →
   addComment (Mem.deps env) id dto w = (Resolved comment, w'))
  ∧ (∀ c w0, addComment (Mem.deps env) id dto w = (Resolved c, w0) →
             c = comment ∧ w0 = w').
Proof.
  intros Hrows Hid issue props comment ev w'.
  rewrite (mem_addComment_fresh env id dto w row rest Hrows Hid).
  fold issue props ev. split.
  - by intros -> -> ->.
  - intros c w0.
    destruct (dbFault env (IssueFindOne _ _)); [discriminate|].
    destruct (dbFault env (CommentSave _)); [discriminate|].
    destruct (brokerFault env ev); [discriminate|].
    by intros [= <- <-].
Qed.

Lemma addComment_success_witness :
  addComment (Mem.deps envOk) "uuid-0" commentHi worldA
  = (Resolved (mkComment (<["id" := VStr "uuid-1"]> commentHi)
                 (Some (Mem.entityOfRow (<["id" := VStr "uuid-0"]> bugA)))),
     worldC)
  ∧ commentTable worldC
    = [mkCommentRow (<["id" := VStr "uuid-1"]> commentHi) (VStr "uuid-0")].
Proof.
  destruct (addComment_success envOk "uuid-0" commentHi worldA
              (<["id" := VStr "uuid-0"]> bugA) []) as [H _];
    [vm_compute; reflexivity | vm_compute; reflexivity |].
  split; [|vm_compute; reflexivity].
  rewrite H by reflexivity. vm_compute. reflexivity.
Defined.

(** X2. When [addComment] cannot finish on an existing issue, the error is
    the collaborator's own, not translated: a rejected save leaves the
    state as it was; a rejected publication leaves the comment stored, with
    no event published. *)
Theorem addComment_failure_not_rolled_back env id (dto : Obj) w row rest e :
  Mem.rowsWithId (VStr id) (issueTable w) = row :: rest →
  dto !! "id" = None →
  dbFault env (IssueFindOne id []) = None →
  let issue := Mem.entityOfRow row in
  let entity := mkComment (delete "issue" dto) (Some issue) in
  let props := <["id" := VStr (genId env (nextId w))]> (delete "issue" dto) in
  let ev := mkEvent "news" "news.issue.update" (commentPayload dto issue) in
  (dbFault env (CommentSave entity) = Some e →
   addComment (Mem.deps env) id dto w = (Rejected e, w))
  ∧ (dbFault env (CommentSave entity) = None →
     brokerFault env ev = Some e →
     addComment (Mem.deps env) id dto w
     = (Rejected e,
        {| issueTable := issueTable w;
           commentTable := commentTable w ++ [mkCommentRow props (VStr id)];
           published := published w;
           consoleLog := consoleLog w;
           nextId := S (nextId w) |})).
Proof.
  intros Hrows Hid Hfind issue entity props ev.
  rewrite (mem_addComment_fresh env id dto w row rest Hrows Hid), Hfind.
  fold issue entity props ev. split.
  - by intros ->.
  - by intros -> ->.
Qed.

Lemma addComment_failure_not_rolled_back_witness :
  addComment (Mem.deps envNewsDown) "uuid-0" commentHi worldA
  = (Rejected (Failure "channel closed"),
     {| issueTable := issueTable worldA;
        commentTable :=
          [mkCommentRow (<["id" := VStr "uuid-1"]> commentHi) (VStr "uuid-0")];
        published := published worldA;
        consoleLog := [];
        nextId := 2 |}).
Proof.
  destruct (addComment_failure_not_rolled_back envNewsDown "uuid-0" commentHi worldA
              (<["id" := VStr "uuid-0"]> bugA) [] (Failure "channel closed"))
    as [_ H]; [vm_compute; reflexivity | vm_compute; reflexivity | reflexivity |].
  rewrite H by (vm_compute; reflexivity). vm_compute. reflexivity.
Defined.

(** The event of an [addComment] that resolved. *)
Lemma mem_addComment_resolved env id dto w c w' :
  addComment (Mem.deps env) id dto w = (Resolved c, w') →
  ∃ row rest,
    Mem.rowsWithId (VStr id) (issueTable w) = row :: rest
    ∧ last (published w')
      = Some (mkEvent "news" "news.issue.update"
                (commentPayload dto (Mem.entityOfRow row))).
Proof.
  rewrite mem_addComment_eq.
  destruct (dbFault env _); [discriminate|].
  destruct (Mem.rowsWithId _ _) as [|row rest]; [discriminate|].
  cbn zeta. destruct (Mem.commentSave env _ w) as [[c1|e] w1]; [|discriminate].
  destruct (brokerFault env _); [discriminate|].
  intros [= <- <-]. exists row, rest. split; [done|].
  unfold Mem.log_event; cbn. apply last_snoc.
Qed.

(** X3. Whose properties win in the [news.issue.update] event. In
    [addComment] the input is spread last: every property of the input is
    in the event as given, even [issueId], [projectId] or [updateScopes],
    and the service's values appear only where the input has none. In
    [update] the input is spread first: [issueId], [projectId] and
    [updateScopes] are always the service's, and every other property is
    the input's. *)
Theorem event_payload_precedence env id (dto : Obj) w :
  (∀ c w', addComment (Mem.deps env) id dto w = (Resolved c, w') →
     ∃ msg, last (published w') = Some (mkEvent "news" "news.issue.update" msg)
       ∧ (∀ k v, dto !! k = Some v → msg !! k = Some v)
       ∧ (dto !! "issueId" = None → msg !! "issueId" = Some (VStr id))
       ∧ (dto !! "updateScopes" = None →
          msg !! "updateScopes" = Some (VScopes [COMMENT])))
  ∧ (∀ issue w', update (Mem.deps env) id dto w = (Resolved issue, w') →
     ∃ msg, last (published w') = Some (mkEvent "news" "news.issue.update" msg)
       ∧ msg !! "issueId" = Some (prop "id" (issue_props issue))
       ∧ msg !! "projectId" = Some (prop "projectId" (issue_props issue))
       ∧ msg !! "updateScopes" = Some (VScopes (updateScopesOf dto))
       ∧ (∀ k, k ≠ "issueId" → k ≠ "projectId" → k ≠ "updateScopes" →
               msg !! k = dto !! k)).
Proof.
  split.
  - intros c w' H.
    apply mem_addComment_resolved in H as (row & rest & Hrows & Hlast).
    destruct (rowsWithId_head _ _ _ _ Hrows) as [Hid _].
    eexists. split; [exact Hlast|]. unfold commentPayload.
    cbn [issue_props Mem.entityOfRow]. rewrite Hid. split; [|split].
    + intros k v Hk. by apply lookup_union_Some_l.
    + intros Hk. rewrite lookup_union_r by done.
      rewrite !lookup_insert_ne by done. apply lookup_singleton_eq.
    + intros Hk. rewrite lookup_union_r by done. apply lookup_insert_eq.
  - intros issue w' H. apply mem_update_resolved in H.
    eexists. split; [rewrite H; apply last_snoc|]. unfold updatePayload.
    split; [|split; [|split]].
    + rewrite lookup_insert_ne by done. apply lookup_insert_eq.
    + rewrite !lookup_insert_ne by done. apply lookup_insert_eq.
    + apply lookup_insert_eq.
    + intros k H1 H2 H3. by rewrite !lookup_insert_ne by done.
Qed.

Lemma event_payload_precedence_witness :
  (∃ msg, last (published (addComment (Mem.deps envOk) "uuid-0" commentSpoof worldA).2)
          = Some (mkEvent "news" "news.issue.update" msg)
          ∧ msg !! "issueId" = Some (VStr "uuid-9")
          ∧ msg !! "updateScopes" = Some (VScopes [TITLE]))
  ∧ (∃ msg, last (published (update (Mem.deps envOk) "uuid-0" updateSpoof worldA).2)
            = Some (mkEvent "news" "news.issue.update" msg)
            ∧ msg !! "issueId" = Some (VStr "uuid-0")
            ∧ msg !! "updateScopes" = Some (VScopes [TITLE])).
Proof.
  destruct (event_payload_precedence envOk "uuid-0" commentSpoof worldA) as [Hc _].
  destruct (event_payload_precedence envOk "uuid-0" updateSpoof worldA) as [_ Hu].
  split.
  - edestruct Hc as (msg & Hlast & Hdto & _); [vm_compute; reflexivity|].
    exists msg. split; [exact Hlast|].
    split; apply Hdto; vm_compute; reflexivity.
  - edestruct Hu as (msg & Hlast & Hid & _ & Hscopes & _); [vm_compute; reflexivity|].
    exists msg. split; [exact Hlast|]. split.
    + rewrite Hid. vm_compute. reflexivity.
    + rewrite Hscopes. vm_compute. reflexivity.
Defined.

(* ================================================================= *)
(** ** update, continued *)

(** [update] on an existing issue, for partial fields without an id, case
    by case. *)
Lemma mem_update_existing env id (dto : Obj) w row rest :
  Mem.rowsWithId (VStr id) (issueTable w) = row :: rest →
  dto !! "id" = None →
  let issue := Mem.entityOfRow (dto ∪ row) in
  let w1 := Mem.set_issueTable (Mem.updateRows (VStr id) dto (issueTable w)) w in
  let ev := mkEvent "news" "news.issue.update" (updatePayload dto issue) in
  update (Mem.deps env) id dto w =
  match dbFault env (IssueUpdate id dto) with
  | Some e => (Rejected e, w)
  | None =>
      match dbFault env (IssueFindOne id []) with
      | Some e => (Rejected e, w1)
      | None =>
          match brokerFault env ev with
          | Some e => (Rejected e, w1)
          | None => (Resolved issue, Mem.log_event ev w1)
          end
      end
  end.
Proof.
  intros Hrows Hid issue w1 ev. rewrite mem_update_eq. fold w1.
  destruct (dbFault env (IssueUpdate _ _)); [done|].
  destruct (dbFault env (IssueFindOne _ _)); [done|].
  unfold w1 at 1. cbn [issueTable Mem.set_issueTable].
  by rewrite rowsWithId_updateRows, Hrows by done.
Qed.

(** X4. [update] on an existing issue, with partial fields that bring no
    id, resolves when the update, the re-read and the publication go
    through, and only then. The issue returned is the stored one with the
    given fields written over it: every given field has the given value,
    every other column is as it was, the id is unchanged; the rows of other
    issues are untouched; one event is published. *)
Theorem update_applies_fields env id (dto : Obj) w row rest :
  Mem.rowsWithId (VStr id) (issueTable w) = row :: rest →
  dto !! "id" = None →
  let issue := Mem.entityOfRow (dto ∪ row) in
  let ev := mkEvent "news" "news.issue.update" (updatePayload dto issue) in
  let w' := {| issueTable := Mem.updateRows (VStr id) dto (issueTable w);
               commentTable := commentTable w;
               published := published w ++ [ev];
               consoleLog := consoleLog w;
               nextId := nextId w |} in
  (dbFault env (IssueUpdate id dto) = None →
   dbFault env (IssueFindOne id []) = None →
   brokerFault env ev = None →
   update (Mem.deps env) id dto w = (Resolved issue, w'))
  ∧ (∀ issue0 w0, update (Mem.deps env) id dto w = (Resolved issue0, w0) →
                  issue0 = issue ∧ w0 = w')
  ∧ (∀ k v, dto !! k = Some v → issue_props issue !! k = Some v)
  ∧ (∀ k, dto !! k = None → issue_props issue !! k = row !! k)
  ∧ prop "id" (issue_props issue) = VStr id
  ∧ (∀ r, r ∈ issueTable w → prop "id" r ≠ VStr id → r ∈ issueTable w').
Proof.
  intros Hrows Hid issue ev w'.
  destruct (rowsWithId_head _ _ _ _ Hrows) as [Hrowid _].
  rewrite (mem_update_existing env id dto w row rest Hrows Hid).
  fold issue ev. split; [|split; [|split; [|split; [|split]]]].
  - by intros -> -> ->.
  - intros issue0 w0.
    destruct (dbFault env (IssueUpdate _ _)); [discriminate|].
    destruct (dbFault env (IssueFindOne _ _)); [discriminate|].
    destruct (brokerFault env ev); [discriminate|].
    by intros [= <- <-].
  - intros k v Hk. by apply lookup_union_Some_l.
  - intros k Hk. cbn. by rewrite lookup_union_r.
  - unfold prop in *. cbn. by rewrite lookup_union_r.
  - intros r Hr Hne. cbn. unfold Mem.updateRows.
    apply list_elem_of_fmap. exists r. by rewrite decide_False.
Qed.

Lemma update_applies_fields_witness :
  ∃ w', update (Mem.deps envOk) "uuid-0" {["title" := VStr "Bug A2"]} worldA
        = (Resolved (Mem.entityOfRow
                       (<["title" := VStr "Bug A2"]> (<["id" := VStr "uuid-0"]> bugA))),
           w')
        ∧ issueTable w'
          = [<["title" := VStr "Bug A2"]> (<["id" := VStr "uuid-0"]> bugA)].
Proof.
  destruct (update_applies_fields envOk "uuid-0" {["title" := VStr "Bug A2"]} worldA
              (<["id" := VStr "uuid-0"]> bugA) []) as [H _];
    [vm_compute; reflexivity | vm_compute; reflexivity |].
  eexists. split.
  - rewrite H by reflexivity. vm_compute. reflexivity.
  - vm_compute. reflexivity.
Defined.

(** X5. A failure inside [update] is the collaborator's own error, not
    translated, and what was done before it stays done: when the update
    itself is rejected nothing changed; when the re-read or the publication
    is rejected the fields are nonetheless written, and no event is
    published. *)
Theorem update_failure_not_rolled_back env id (dto : Obj) w e :
  let w1 := {| issueTable := Mem.updateRows (VStr id) dto (issueTable w);
               commentTable := commentTable w;
               published := published w;
               consoleLog := consoleLog w;
               nextId := nextId w |} in
  (dbFault env (IssueUpdate id dto) = Some e →
   update (Mem.deps env) id dto w = (Rejected e, w))
  ∧ (dbFault env (IssueUpdate id dto) = None →
     dbFault env (IssueFindOne id []) = Some e →
     update (Mem.deps env) id dto w = (Rejected e, w1))
  ∧ (∀ row rest,
       dbFault env (IssueUpdate id dto) = None →
       dbFault env (IssueFindOne id []) = None →
       Mem.rowsWithId (VStr id) (issueTable w1) = row :: rest →
       brokerFault env
         (mkEvent "news" "news.issue.update" (updatePayload dto (Mem.entityOfRow row)))
       = Some e →
       update (Mem.deps env) id dto w = (Rejected e, w1)).
Proof.
  intros w1. rewrite mem_update_eq. split; [|split].
  - by intros ->.
  - by intros -> ->.
  - intros row rest -> ->. cbn [issueTable w1 Mem.set_issueTable].
    intros -> Hev. cbn zeta. by rewrite Hev.
Qed.

Lemma update_failure_not_rolled_back_witness :
  update (Mem.deps envBrokerDown) "uuid-0" {["title" := VStr "Bug A2"]} worldA
  = (Rejected (Failure "channel closed"),
     {| issueTable := [<["title" := VStr "Bug A2"]> (<["id" := VStr "uuid-0"]> bugA)];
        commentTable := [];
        published := published worldA;
        consoleLog := [];
        nextId := 1 |}).
Proof.
  destruct (update_failure_not_rolled_back envBrokerDown "uuid-0"
              {["title" := VStr "Bug A2"]} worldA (Failure "channel closed"))
    as (_ & _ & H).
  rewrite (H (<["title" := VStr "Bug A2"]> (<["id" := VStr "uuid-0"]> bugA)) []);
    [| reflexivity | reflexivity | vm_compute; reflexivity | reflexivity].
  vm_compute. reflexivity.
Defined.

(** X6. Read your writes: after an [update] that resolved, [findOne] on the
    same id resolves with the very issue [update] returned. *)
Theorem update_then_findOne env id dto w issue w' :
  update (Mem.deps env) id dto w = (Resolved issue, w') →
  findOne (Mem.deps env) id w' = (Resolved issue, w').
Proof.
  rewrite mem_update_eq, mem_findOne_eq.
  destruct (dbFault env (IssueUpdate _ _)); [discriminate|].
  destruct (dbFault env (IssueFindOne _ _)); [discriminate|].
  destruct (Mem.rowsWithId _ _) as [|r rest] eqn:Hrows; [discriminate|].
  cbn zeta. destruct (brokerFault env _); [discriminate|].
  intros [= <- <-]. cbn [issueTable Mem.log_event]. by rewrite Hrows.
Qed.

Lemma update_then_findOne_witness :
  let r := update (Mem.deps envOk) "uuid-0" {["title" := VStr "Bug A2"]} worldA in
  ∃ issue, r.1 = Resolved issue
           ∧ prop "title" (issue_props issue) = VStr "Bug A2"
           ∧ findOne (Mem.deps envOk) "uuid-0" r.2 = (Resolved issue, r.2).
Proof.
  intros r.
  exists (Mem.entityOfRow (<["title" := VStr "Bug A2"]> (<["id" := VStr "uuid-0"]> bugA))).
  split; [vm_compute; reflexivity|]. split; [vm_compute; reflexivity|].
  apply (update_then_findOne envOk "uuid-0" {["title" := VStr "Bug A2"]} worldA).
  vm_compute. reflexivity.
Defined.

(* ================================================================= *)
(** ** remove, continued *)

(** X7. A failure inside [remove] after the fetch is the collaborator's own
    error, not translated, and nothing is undone: a rejected delete leaves
    everything as it was; when the first publication is rejected the issue
    is gone and no event tells of it; when the second one is rejected the
    issue is gone and only [project.issue.deleted] was published. *)
Theorem remove_failure_not_rolled_back env id w row rest e :
  Mem.rowsWithId (VStr id) (issueTable w) = row :: rest →
  dbFault env (IssueFindOne id []) = None →
  let ev1 := mkEvent "direct-exchange" "project.issue.deleted"
               {["uuid" := VStr id]} in
  let ev2 := mkEvent "news" "news.issue.delete" (deletePayload (Mem.entityOfRow row)) in
  let gone (evs : list Event) :=
    {| issueTable := Mem.deleteRows (VStr id) (issueTable w);
       commentTable := commentTable w;
       published := published w ++ evs;
       consoleLog := consoleLog w;
       nextId := nextId w |} in
  (dbFault env (IssueDelete id) = Some e →
   remove (Mem.deps env) id w = (Rejected e, w))
  ∧ (dbFault env (IssueDelete id) = None → brokerFault env ev1 = Some e →
     remove (Mem.deps env) id w = (Rejected e, gone [])
     ∧ Mem.rowsWithId (VStr id) (issueTable (gone [])) = [])
  ∧ (dbFault env (IssueDelete id) = None → brokerFault env ev1 = None →
     brokerFault env ev2 = Some e →
     remove (Mem.deps env) id w = (Rejected e, gone [ev1])).
Proof.
  intros Hrows Hfind ev1 ev2 gone.
  rewrite mem_remove_eq, Hfind, Hrows. cbn zeta. fold ev1 ev2.
  split; [|split].
  - by intros ->.
  - intros -> ->. split.
    + unfold gone, Mem.set_issueTable. by rewrite app_nil_r.
    + apply rowsWithId_deleted.
  - by intros -> -> ->.
Qed.

Lemma remove_failure_not_rolled_back_witness :
  remove (Mem.deps envNewsDown) "uuid-0" worldA
  = (Rejected (Failure "channel closed"),
     {| issueTable := [];
        commentTable := [];
        published :=
          published worldA
          ++ [mkEvent "direct-exchange" "project.issue.deleted"
                {["uuid" := VStr "uuid-0"]}];
        consoleLog := [];
        nextId := 1 |}).
Proof.
  destruct (remove_failure_not_rolled_back envNewsDown "uuid-0" worldA
              (<["id" := VStr "uuid-0"]> bugA) [] (Failure "channel closed"))
    as (_ & _ & H); [vm_compute; reflexivity | reflexivity |].
  rewrite H by (vm_compute; reflexivity). vm_compute. reflexivity.
Defined.

(** X8. [remove] is not idempotent: after a [remove] that resolved, a second
    [remove] of the same id fails with Not-Found, publishes nothing and
    changes nothing. *)
Theorem remove_twice env id w w' :
  remove (Mem.deps env) id w = (Resolved tt, w') →
  remove (Mem.deps env) id w'
  = (Rejected (HttpException "Issue not found" NOT_FOUND), w').
Proof.
  rewrite (mem_remove_eq env id w), (mem_remove_eq env id w').
  destruct (dbFault env (IssueFindOne id [])); [discriminate|].
  destruct (Mem.rowsWithId _ (issueTable w)) as [|row rest]; [discriminate|].
  cbn zeta.
  destruct (dbFault env (IssueDelete id)); [discriminate|].
  destruct (brokerFault env _); [discriminate|].
  destruct (brokerFault env _); [discriminate|].
  intros [= <-]. cbn [issueTable Mem.log_event Mem.set_issueTable].
  by rewrite rowsWithId_deleted.
Qed.

Lemma remove_twice_witness :
  let w' := (remove (Mem.deps envOk) "uuid-0" worldA).2 in
  remove (Mem.deps envOk) "uuid-0" worldA = (Resolved tt, w')
  ∧ remove (Mem.deps envOk) "uuid-0" w'
    = (Rejected (HttpException "Issue not found" NOT_FOUND), w').
Proof.
  intros w'.
  assert (H : remove (Mem.deps envOk) "uuid-0" worldA = (Resolved tt, w'))
    by (vm_compute; reflexivity).
  split; [exact H | exact (remove_twice envOk "uuid-0" worldA w' H)].
Defined.

(* ================================================================= *)
(** ** Listing after a change *)

Lemma mem_findAll_eq env w :
  findAll (Mem.deps env) w =
  match dbFault env IssueFind with
  | Some e => (Rejected e, w)
  | None => (Resolved (Mem.entityOfRow <$> issueTable w), w)
  end.
Proof.
  unfold findAll. cbn. unfold Mem.issueFind, Mem.guarded.
  by destruct (dbFault env _).
Qed.

Lemma mem_findAllForProject_eq env p w :
  findAllForProject (Mem.deps env) p w =
  match dbFault env (IssueGetMany p) with
  | Some e => (Rejected e, w)
  | None =>
      (Resolved (Mem.entityOfRow <$>
                   filter (λ r, prop "projectId" r = VStr p) (issueTable w)), w)
  end.
Proof.
  unfold findAllForProject. cbn. unfold Mem.issueGetManyByProject, Mem.guarded.
  by destruct (dbFault env _).
Qed.

Lemma entityOfRow_filter (P : Obj → Prop) `{∀ r, Decision (P r)} (t : list Obj) :
  Mem.entityOfRow <$> filter P t
  = filter (λ i, P (issue_props i)) (Mem.entityOfRow <$> t).
Proof.
  induction t as [|r t IH]; [done|].
  rewrite fmap_cons, !filter_cons. cbn [issue_props Mem.entityOfRow].
  destruct (decide (P r)); [rewrite fmap_cons|]; by rewrite IH.
Qed.

Lemma filter_comm_rows (P Q : Obj → Prop) `{∀ r, Decision (P r)}
    `{∀ r, Decision (Q r)} (t : list Obj) :
  filter P (filter Q t) = filter Q (filter P t).
Proof.
  rewrite !list_filter_filter. apply list_filter_iff. tauto.
Qed.

(** X9. After a [remove] that resolved, the lists hold what they held
    before less the issues of that id: [findAll] and, for every project,
    [findAllForProject] return, in some order, the issues they returned
    before whose id is not the removed one. *)
Theorem remove_then_lists env id w w' :
  remove (Mem.deps env) id w = (Resolved tt, w') →
  (∀ l, findAll (Mem.deps env) w = (Resolved l, w) →
        ∃ l', findAll (Mem.deps env) w' = (Resolved l', w')
              ∧ l' ≡ₚ filter (λ i, prop "id" (issue_props i) ≠ VStr id) l)
  ∧ (∀ p l, findAllForProject (Mem.deps env) p w = (Resolved l, w) →
            ∃ l', findAllForProject (Mem.deps env) p w' = (Resolved l', w')
                  ∧ l' ≡ₚ filter (λ i, prop "id" (issue_props i) ≠ VStr id) l).
Proof.
  rewrite mem_remove_eq.
  destruct (dbFault env (IssueFindOne id [])); [discriminate|].
  destruct (Mem.rowsWithId _ (issueTable w)) as [|row rest]; [discriminate|].
  cbn zeta.
  destruct (dbFault env (IssueDelete id)); [discriminate|].
  destruct (brokerFault env _); [discriminate|].
  destruct (brokerFault env _); [discriminate|].
  intros [= <-]. split.
  - intros l. rewrite !mem_findAll_eq.
    destruct (dbFault env IssueFind); [discriminate|].
    intros [= <-]. cbn [issueTable Mem.log_event Mem.set_issueTable].
    eexists. split; [reflexivity|].
    unfold Mem.deleteRows. by rewrite entityOfRow_filter.
  - intros p l. rewrite !mem_findAllForProject_eq.
    destruct (dbFault env (IssueGetMany p)); [discriminate|].
    intros [= <-]. cbn [issueTable Mem.log_event Mem.set_issueTable].
    eexists. split; [reflexivity|].
    unfold Mem.deleteRows.
    rewrite (filter_comm_rows (λ r, prop "projectId" r = VStr p)).
    by rewrite entityOfRow_filter.
Qed.

Lemma remove_then_lists_witness :
  let w' := (remove (Mem.deps envOk) "uuid-0" worldAC).2 in
  (∃ l', findAllForProject (Mem.deps envOk) "P1" w' = (Resolved l', w') ∧ l' ≡ₚ [])
  ∧ (∃ l', findAll (Mem.deps envOk) w' = (Resolved l', w')
           ∧ l' ≡ₚ [Mem.entityOfRow (<["id" := VStr "uuid-1"]> bugC)]).
Proof.
  intros w'.
  destruct (remove_then_lists envOk "uuid-0" worldAC w') as [Hall Hproj];
    [vm_compute; reflexivity|].
  split.
  - destruct (Hproj "P1" [Mem.entityOfRow (<["id" := VStr "uuid-0"]> bugA)])
      as (l' & Hl' & Hperm); [vm_compute; reflexivity|].
    exists l'. split; [exact Hl'|]. rewrite Hperm. vm_compute. reflexivity.
  - destruct (Hall [Mem.entityOfRow (<["id" := VStr "uuid-0"]> bugA);
                    Mem.entityOfRow (<["id" := VStr "uuid-1"]> bugC)])
      as (l' & Hl' & Hperm); [vm_compute; reflexivity|].
    exists l'. split; [exact Hl'|]. rewrite Hperm. vm_compute. reflexivity.
Defined.

Lemma rowsWithId_snoc_fresh id (t : list Obj) (row : Obj) :
  Mem.rowsWithId id t = [] → prop "id" row = id →
  Mem.rowsWithId id (t ++ [row]) = [row].
Proof.
  intros Ht Hrow. unfold Mem.rowsWithId in *.
  by rewrite filter_app, Ht, filter_cons_True.
Qed.

(** X10. Once the save of [create] went through, the new issue can be
    fetched under its generated id, whether [create] then resolved or
    failed on a publication: provided that id was not in use, [findOne] on
    it resolves with the input plus the id. *)
Theorem create_then_findOne env (dto : Obj) w :
  dto !! "id" = None →
  let newId := genId env (nextId w) in
  let issue := mkIssue (<["id" := VStr newId]> dto) None in
  let r := create (Mem.deps env) dto w in
  Mem.rowsWithId (VStr newId) (issueTable w) = [] →
  dbFault env (IssueSave (mkIssue dto None)) = None →
  dbFault env (IssueFindOne newId []) = None →
  findOne (Mem.deps env) newId r.2 = (Resolved issue, r.2)
  ∧ (r.1 = Resolved issue
     ∨ r.1 = Rejected (HttpException "Could not save issue" INTERNAL_SERVER_ERROR)).
Proof.
  intros Hid newId issue r Hfresh Hsave Hfind. unfold r.
  rewrite mem_create_eq by done. fold newId. rewrite Hsave.
  assert (Hrows : Mem.rowsWithId (VStr newId)
                    (issueTable w ++ [<["id" := VStr newId]> dto])
                  = [<["id" := VStr newId]> dto]).
  { apply rowsWithId_snoc_fresh; [done|]. unfold prop. by rewrite lookup_insert_eq. }
  destruct (brokerFault env _); [|destruct (brokerFault env _)];
    cbn [fst snd]; (split; [|by eauto]); rewrite mem_findOne_eq, Hfind;
    cbn [issueTable Mem.log_console Mem.log_event Mem.bump_nextId
         Mem.set_issueTable];
    by rewrite Hrows.
Qed.

Lemma create_then_findOne_witness :
  let r := create (Mem.deps envNewsDown) bugA emptyWorld in
  r.1 = Rejected (HttpException "Could not save issue" INTERNAL_SERVER_ERROR)
  ∧ findOne (Mem.deps envNewsDown) "uuid-0" r.2
    = (Resolved (mkIssue (<["id" := VStr "uuid-0"]> bugA) None), r.2).
Proof.
  intros r.
  destruct (create_then_findOne envNewsDown bugA emptyWorld) as [H _];
    [vm_compute; reflexivity | reflexivity | reflexivity | reflexivity |].
  split; [vm_compute; reflexivity | exact H].
Defined.

(** X11. After a [create] that resolved, for an input without an id of its
    own, the lists gain exactly one issue, which carries the new id and
    every field of the input: [findAll] returns, in some order, what it
    returned before and that issue; [findAllForProject] does so for the
    project named in the input, and returns what it returned before for
    every other project. *)
Theorem create_then_lists env (dto : Obj) w issue w' :
  dto !! "id" = None →
  create (Mem.deps env) dto w = (Resolved issue, w') →
  ∃ i, prop "id" (issue_props i) = prop "id" (issue_props issue)
     ∧ dto ⊆ issue_props i
     ∧ (∀ l, findAll (Mem.deps env) w = (Resolved l, w) →
             ∃ l', findAll (Mem.deps env) w' = (Resolved l', w') ∧ l' ≡ₚ i :: l)
     ∧ (∀ p l, findAllForProject (Mem.deps env) p w = (Resolved l, w) →
               ∃ l', findAllForProject (Mem.deps env) p w' = (Resolved l', w')
                     ∧ l' ≡ₚ (if decide (prop "projectId" dto = VStr p)
                              then i :: l else l)).
Proof.
  intros Hid. rewrite mem_create_eq by done.
  destruct (dbFault env _); [discriminate|].
  destruct (brokerFault env _); [discriminate|].
  destruct (brokerFault env _); [discriminate|].
  intros [= <- <-].
  exists (mkIssue (<["id" := VStr (genId env (nextId w))]> dto) None).
  split; [done|]. split; [by apply insert_subseteq|]. split.
  - intros l. rewrite !mem_findAll_eq.
    destruct (dbFault env IssueFind); [discriminate|].
    intros [= <-]. cbn [issueTable Mem.log_event Mem.set_issueTable Mem.bump_nextId].
    eexists. split; [reflexivity|].
    rewrite fmap_app. symmetry. apply Permutation_cons_append.
  - intros p l. rewrite !mem_findAllForProject_eq.
    destruct (dbFault env (IssueGetMany p)); [discriminate|].
    intros [= <-]. cbn [issueTable Mem.log_event Mem.set_issueTable Mem.bump_nextId].
    eexists. split; [reflexivity|].
    rewrite filter_app, fmap_app, filter_cons, filter_nil.
    assert (Hp : prop "projectId" (<["id" := VStr (genId env (nextId w))]> dto)
                 = prop "projectId" dto)
      by (unfold prop; by rewrite lookup_insert_ne).
    rewrite Hp. destruct (decide (prop "projectId" dto = VStr p)).
    + symmetry. apply Permutation_cons_append.
    + by rewrite fmap_nil, app_nil_r.
Qed.

Lemma create_then_lists_witness :
  ∃ i, prop "id" (issue_props i) = VStr "uuid-1"
     ∧ bugC ⊆ issue_props i
     ∧ (∃ l', findAll (Mem.deps envOk) worldAC = (Resolved l', worldAC)
              ∧ l' ≡ₚ [i; Mem.entityOfRow (<["id" := VStr "uuid-0"]> bugA)])
     ∧ (∃ l', findAllForProject (Mem.deps envOk) "P1" worldAC
              = (Resolved l', worldAC)
              ∧ l' ≡ₚ [Mem.entityOfRow (<["id" := VStr "uuid-0"]> bugA)]).
Proof.
  destruct (create_then_lists envOk bugC worldA
              (mkIssue (<["id" := VStr "uuid-1"]> bugC) None) worldAC)
    as (i & Hi & Hsub & Hall & Hproj);
    [vm_compute; reflexivity | vm_compute; reflexivity |].
  exists i. split; [rewrite Hi; vm_compute; reflexivity|]. split; [exact Hsub|].
  split.
  - apply (Hall [Mem.entityOfRow (<["id" := VStr "uuid-0"]> bugA)]).
    vm_compute. reflexivity.
  - destruct (Hproj "P1" [Mem.entityOfRow (<["id" := VStr "uuid-0"]> bugA)])
      as (l' & Hl' & Hperm); [vm_compute; reflexivity|].
    exists l'. split; [exact Hl'|].
    rewrite decide_False in Hperm by (vm_compute; discriminate). exact Hperm.
Defined.

Lemma mem_findAllCommentsForIssue_eq env id w :
  findAllCommentsForIssue (Mem.deps env) id w =
  match dbFault env (IssueFindOne id ["comments"]) with
  | Some e => (Rejected e, w)
  | None =>
      (Resolved match Mem.rowsWithId (VStr id) (issueTable w) with
                | [] => None
                | r :: _ =>
                    Some {| issue_props := r;
                            issue_comments :=
                              Some (Mem.commentsOf (VStr id) (commentTable w)) |}
                end, w)
  end.
Proof.
  unfold findAllCommentsForIssue, truthy_promise.
  change (issueRepository_findOne (Mem.deps env)) with (Mem.issueFindOne env).
  unfold Mem.issueFindOne, Mem.guarded.
  destruct (dbFault env _); [done|].
  destruct (Mem.rowsWithId _ _); [done|].
  rewrite decide_True; [done | by left].
Qed.

Lemma mem_findAllComments_eq env w :
  findAllComments (Mem.deps env) w =
  match dbFault env CommentFind with
  | Some e => (Rejected e, w)
  | None =>
      (Resolved ((λ c, {| comment_props := row_props c; comment_issue := None |})
                   <$> commentTable w), w)
  end.
Proof.
  unfold findAllComments. cbn. unfold Mem.commentFind, Mem.guarded.
  by destruct (dbFault env _).
Qed.

(** X12. After an [addComment] that resolved, for an input without an id of
    its own, the comment is listed: [findAllComments] returns, in some
    order, what it returned before and the new comment (its issue link not
    loaded), and [findAllCommentsForIssue] on the issue returns the issue
    with, in some order, the comments it had before and the new one. *)
Theorem addComment_then_comments env id (dto : Obj) w c w' :
  dto !! "id" = None →
  addComment (Mem.deps env) id dto w = (Resolved c, w') →
  (∀ l, findAllComments (Mem.deps env) w = (Resolved l, w) →
        ∃ l', findAllComments (Mem.deps env) w' = (Resolved l', w')
              ∧ l' ≡ₚ mkComment (comment_props c) None :: l)
  ∧ (∀ props cs,
       findAllCommentsForIssue (Mem.deps env) id w
       = (Resolved (Some (mkIssue props (Some cs))), w) →
       ∃ cs', findAllCommentsForIssue (Mem.deps env) id w'
              = (Resolved (Some (mkIssue props (Some cs'))), w')
              ∧ cs' ≡ₚ comment_props c :: cs).
Proof.
  intros Hid Hadd.
  assert (∃ row rest, Mem.rowsWithId (VStr id) (issueTable w) = row :: rest)
    as (row & rest & Hrows).
  { apply mem_addComment_resolved in Hadd as (row & rest & ? & _). eauto. }
  rewrite (mem_addComment_fresh env id dto w row rest Hrows Hid) in Hadd.
  destruct (dbFault env (IssueFindOne id [])); [discriminate|].
  destruct (dbFault env (CommentSave _)); [discriminate|].
  destruct (brokerFault env _); [discriminate|].
  injection Hadd as <- <-. split.
  - intros l. rewrite !mem_findAllComments_eq.
    destruct (dbFault env CommentFind); [discriminate|].
    intros [= <-]. cbn [commentTable comment_props Mem.log_event].
    eexists. split; [reflexivity|].
    rewrite fmap_app. symmetry. apply Permutation_cons_append.
  - intros props cs. rewrite !mem_findAllCommentsForIssue_eq.
    destruct (dbFault env (IssueFindOne _ _)); [discriminate|].
    cbn [issueTable commentTable comment_props Mem.log_event]. rewrite Hrows.
    intros [= <- <-]. eexists. split; [reflexivity|]. unfold Mem.commentsOf.
    rewrite filter_app, fmap_app, filter_cons_True by done.
    symmetry. apply Permutation_cons_append.
Qed.

Lemma addComment_then_comments_witness :
  (∃ l', findAllComments (Mem.deps envOk) worldC = (Resolved l', worldC)
         ∧ l' ≡ₚ [mkComment (<["id" := VStr "uuid-1"]> commentHi) None])
  ∧ (∃ cs', findAllCommentsForIssue (Mem.deps envOk) "uuid-0" worldC
            = (Resolved (Some (mkIssue (<["id" := VStr "uuid-0"]> bugA) (Some cs'))),
               worldC)
            ∧ cs' ≡ₚ [<["id" := VStr "uuid-1"]> commentHi]).
Proof.
  destruct (addComment_then_comments envOk "uuid-0" commentHi worldA
              (mkComment (<["id" := VStr "uuid-1"]> commentHi)
                 (Some (Mem.entityOfRow (<["id" := VStr "uuid-0"]> bugA))))
              worldC) as [Hall Hissue];
    [vm_compute; reflexivity | vm_compute; reflexivity |].
  split.
  - apply (Hall []). vm_compute. reflexivity.
  - apply (Hissue (<["id" := VStr "uuid-0"]> bugA) []). vm_compute. reflexivity.
Defined.

(* ================================================================= *)
(** ** What is published, and in which order *)

Lemma issueSave_published env entity w :
  published (Mem.issueSave env entity w).2 = published w.
Proof.
  unfold Mem.issueSave, Mem.guarded.
  destruct (dbFault env _); [done|].
  by destruct (prop "id" (issue_props entity)).
Qed.

Lemma commentSave_published env entity w :
  published (Mem.commentSave env entity w).2 = published w.
Proof.
  unfold Mem.commentSave, Mem.guarded.
  destruct (dbFault env _); [done|].
  by destruct (prop "id" (comment_props entity)).
Qed.

(** X13. No method ever takes back or reorders what was published, and each
    one adds at most its own messages, in its own order: whatever the
    input and whatever is rejected, the messages published afterwards are
    the ones published before followed by a beginning of
    [project.issue.created], [news.issue.create] for [create], of
    [news.issue.update] for [update] and [addComment], and of
    [project.issue.deleted], [news.issue.delete] for [remove]. *)
Theorem published_routes env w :
  (∀ dto, ∃ evs,
     published (create (Mem.deps env) dto w).2 = published w ++ evs
     ∧ routes evs `prefix_of` createRoutes)
  ∧ (∀ id dto, ∃ evs,
       published (update (Mem.deps env) id dto w).2 = published w ++ evs
       ∧ routes evs `prefix_of` updateRoutes)
  ∧ (∀ id, ∃ evs,
       published (remove (Mem.deps env) id w).2 = published w ++ evs
       ∧ routes evs `prefix_of` removeRoutes)
  ∧ (∀ id dto, ∃ evs,
       published (addComment (Mem.deps env) id dto w).2 = published w ++ evs
       ∧ routes evs `prefix_of` addCommentRoutes).
Proof.
  assert (Hnil : ∀ l : list (string * string), routes [] `prefix_of` l)
    by (intros l; by exists l).
  split; [|split; [|split]].
  - intros dto. unfold create, tryCatch, bind, effect, throw, ret.
    change (issueRepository_save (Mem.deps env)) with (Mem.issueSave env).
    change (amqpConnection_publish (Mem.deps env)) with (Mem.publish env).
    change (console_error (Mem.deps env)) with Mem.log_console.
    pose proof (issueSave_published env
                  (issueRepository_create (Mem.deps env) dto) w) as Hsave.
    destruct (Mem.issueSave env _ w) as [[saved|e] w1]; cbn [snd] in Hsave.
    + unfold Mem.publish, effect, throw.
      destruct (brokerFault env _).
      * exists []. cbn. by rewrite Hsave, app_nil_r.
      * destruct (brokerFault env _).
        -- eexists [_]. cbn. rewrite Hsave. split; [done|]. by eexists [_].
        -- eexists [_; _]. cbn. rewrite Hsave, <- app_assoc. split; [done|].
           by exists [].
    + exists []. cbn. by rewrite Hsave, app_nil_r.
  - intros id dto. rewrite mem_update_eq.
    destruct (dbFault env (IssueUpdate _ _));
      [exists []; cbn; by rewrite app_nil_r|].
    destruct (dbFault env (IssueFindOne _ _));
      [exists []; cbn; by rewrite app_nil_r|].
    destruct (Mem.rowsWithId _ _); [exists []; cbn; by rewrite app_nil_r|].
    cbn zeta. destruct (brokerFault env _);
      [exists []; cbn; by rewrite app_nil_r|].
    eexists [_]. cbn. split; [done|]. by exists [].
  - intros id. rewrite mem_remove_eq.
    destruct (dbFault env (IssueFindOne _ _));
      [exists []; cbn; by rewrite app_nil_r|].
    destruct (Mem.rowsWithId _ _); [exists []; cbn; by rewrite app_nil_r|].
    cbn zeta. destruct (dbFault env (IssueDelete _));
      [exists []; cbn; by rewrite app_nil_r|].
    destruct (brokerFault env _); [exists []; cbn; by rewrite app_nil_r|].
    destruct (brokerFault env _).
    + eexists [_]. cbn. split; [done|]. by eexists [_].
    + eexists [_; _]. cbn. rewrite <- app_assoc. split; [done|]. by exists [].
  - intros id dto. rewrite mem_addComment_eq.
    destruct (dbFault env (IssueFindOne _ _));
      [exists []; cbn; by rewrite app_nil_r|].
    destruct (Mem.rowsWithId _ _) as [|row rest];
      [exists []; cbn; by rewrite app_nil_r|].
    cbn zeta.
    pose proof (commentSave_published env
                  (mkComment (delete "issue" dto) (Some (Mem.entityOfRow row))) w)
      as Hsave.
    destruct (Mem.commentSave env _ w) as [[c|e] w1]; cbn [snd] in Hsave.
    + destruct (brokerFault env _).
      * exists []. cbn. by rewrite Hsave, app_nil_r.
      * eexists [_]. cbn. rewrite Hsave. split; [done|]. by exists [].
    + exists []. cbn. by rewrite Hsave, app_nil_r.
Qed.
